(* ===== verification/_CoqProject ===== *)
-Q . S2P
Prelude.v
JsValue.v
Regex.v
RegexSpec.v
Random.v
StringLoop.v
Parser.v
