(* ===== verification/Prelude.v ===== *)
(** * A verification library for the mockjs placeholder engine

    The program.  mockjs turns placeholder strings into random data.  Two
    parts of it are under src/:
    - hl/src/parser.ts, [parser(value)]: matches [value] against the
      directive pattern (an [@], an opcode of word characters, and an
      argument text between the first [(] after it and the last [)] of the
      line), splits the argument text on [,], drops empty pieces, turns
      digit-only pieces into numbers, looks the opcode up first in the
      generator set [random] and then in the user registry [use], and calls
      the generator with the arguments spread; a string that does not match
      is returned as it is.
    - lsd/src/random/basic.ts: the generators [integer], [char], [string]
      (with its helper [_getLength]), [boolean], [randomDate], [date] and
      [time], which read [Math.random()] and [new Date()].
    The resolver calls the generators; the generators call one another
    ([string] calls [_getLength] and [char], both call [integer]; [date]
    and [time] call [randomDate]).

    The files.
    - [Prelude] (this file): the effect monad [js St A] of the modelled
      code, a state-passing function with a normal or thrown completion,
      its [let*] notation in [js_scope]; the greedy backtracking
      combinator [try_desc]; prefix functions [take_while]/[drop_while];
      transition systems ([star], [terminates]) with invariants by rule
      induction, termination by a measure and uniqueness of final states
      in a deterministic system; the hint databases [mock] and [mock_rw]
      and the list and integer lemmas the components share.
    - [JsValue]: JavaScript values ([jsval]), strings as UTF-16 code
      units, and the built-ins the code calls: ['' + v] ([concat_string])
      and [v.toString()] ([call_toString]), which throw a [TypeError] on an
      object whose own [toString] is not a function ([has_own_toString]),
      [parseInt(s, 10)] ([parse_int10]), [Number(s)] on digits,
      truthiness, destructuring, [split], [charAt] and [typeof].
    - [Regex]: module [RegexEngine], the ECMAScript backtracking semantics
      of the regular-expression fragment used by parser.ts (literals,
      classes, greedy [*] and [+], groups, anchors; [String.prototype.match]
      without the [g] flag is [regex_exec]); module [Directive], the two
      patterns of parser.ts lines 10 and 19 and single-pass scanners for
      them.
    - [RegexSpec]: module [DirectiveSpec], a declarative reading of the
      directive pattern (the shape [@w(a)post] at the leftmost possible
      [@]), with no reference to backtracking.
    - [Random]: the classes [RandomSource] ([Math.random()] is [k / 2^53]
      for a draw [k] of the source, [new Date()] its clock),
      [StringBounds] (the constants [STRING_MIN_LEN <= STRING_MAX_LEN] of
      utils/const) and [DateFormatter] ([dayjs(d).format(f)]); module
      [Basic], one definition per function of basic.ts, with the state of
      the random source threaded through [js], and the option interfaces
      [integerOption] and [formatOpt] as predicates; module [Examples], a
      concrete source over a list of draws.
    - [StringLoop]: the [for] loop of [string] (basic.ts lines 45-49) as a
      transition system on the loop variables [i], [res] and the state of
      the random source.
    - [Parser]: the generator table [random_table] (a [gmap] from names to
      generators), the record [Registry] that states what a registry
      provides, the two-tier lookup [two_tier] ([random[opt] || use(opt)])
      with its laws (a [Proper] instance for the equivalence [reg_equiv];
      associativity and the empty registry as unit, as stdpp's [Assoc],
      [LeftId] and [RightId] instances),
      and in module [Resolver] the whole of [parser] and its contract
      [resolves], an inductive relation with one rule per outcome.

    The theorems.
    - Regex and RegexSpec: the scanner [scan_directive] equals the
      reference match of the directive pattern (groups 1 and 2, or no
      match); that match is exactly the leftmost [@w(a)] of the
      declarative reading, [a] reaching the last [)] of its line
      (unanchored and greedy); the digit test equals the match of
      [/^\d+$/].
    - Random: [integer] stays within its bounds, throws exactly when
      [.toString()] fails on a bound ([null], or an object with an own
      [toString]), before its draw, leaving the random source as it
      was ([date] and [time] likewise throw on an [undefined] or [null]
      option before any draw), and gives [NaN] on a bound [parseInt] cannot read; the
      draws that give each value form intervals, half as wide at both
      ends, so [char()] draws ['A'] and ['9'] half as often as the other
      characters; [string] throws exactly when ['' + v] fails on its
      [min], [max] or [len], before any draw; otherwise it draws one
      character of [allChar] per position after one draw for its length,
      has a length within the string bounds when its options are
      consistent, exactly [len] when [len] is valid (a text [len] is read
      by [parseInt], so [" 12px"] gives 12), more than [STRING_MAX_LEN] when [min] is
      above it and at most [STRING_MIN_LEN] (none at all for a negative
      [max] on the top draw) when [max] is below it: the sanitizers of
      basic.ts lines 71-72 clamp on one side only; explicit [min] and
      [max] inside the bounds are honoured; [boolean] is fair;
      [randomDate] lies between the epoch and now; [date] and [time] throw
      exactly when called without an options object; with options of
      their declared TypeScript types [integer], [date] and [time] never
      throw and [integer] returns a number.
    - StringLoop: the states the loop reaches keep its invariant, every
      run terminates, the exit is reachable from every state, and the
      exit state is exactly what the recursive [string_loop] computes.
    - Parser: [parser] meets the contract [resolves] and is the only
      computation that does (a refinement of the declarative resolver by
      the code); strings without [@] or without [(] are returned
      unchanged; the built-in set shadows [use], and [use] matters only
      outside it (registries are compared by [reg_equiv], which the
      two-tier lookup respects); unknown opcodes give
      [undefined]; natural numbers printed in decimal and joined with
      commas are parsed back as those numbers; a built-in opcode yields a
      value of its advertised
      [typeof] (or the [TypeError] of [@date()] and [@time()]); the
      comma-joined text of any comma-free pieces is parsed back, in order,
      as the values of its nonempty pieces (digit runs as numbers, the
      others as strings); and, through the
      resolver, [@string(...)] always lies in the string bounds and ignores
      its arguments, [@integer(...)] draws over the whole safe range,
      [@date()] throws and [@date(x)] uses the default format.
    - JsValue holds the lemmas the components share: [split] undone by
      joining comma-free pieces ([split_join]), [parseInt(s, 10)] reading
      white space, a sign and the longest digit prefix
      ([parse_int10_prefix]), decimal printing read back.

    Bounds and fuel.  A draw is an integer [0 <= k < 2^53], the grid of the
    doubles [Math.random()] returns; every theorem holds for every source
    with that law.  [Math.round(x)] is [floor (x + 1/2)] on exact
    rationals: the double rounding of [Math.random() * (max - min) + min]
    is not modelled; the two differ only when that value lies within a
    rounding unit of a half-integer, or when the range exceeds 2^53 (the
    default safe-integer range of [integer]).  Decimal
    printing uses [log2 n + 1] digits of fuel, proved enough
    ([nat_to_decimal_spec]).  The regex matcher [m] recurses on the
    pattern; [regex_exec] tries the start positions with [length s] as
    its count, enough to reach every position of [s] ([exec_scan]).

    Not modelled.  The user registry [use] (hl/src/custom/use, not in
    src/) is a parameter: the resolver's theorems hold for every registry.
    The module [./random] that parser.ts imports is not in src/; it is
    modelled as the export list of basic.ts, without an object prototype.
    Plain objects have [Object.prototype] as prototype and no value of
    the model is a function, so an own [toString] is never callable:
    ['' + v] and [v.toString()] throw on such an object, as JavaScript
    does, and convert every other value.
    dayjs is an external library (the class [DateFormatter]), modelled as
    a total function: the theorems on [date] and [time] hold relative to
    it (real dayjs throws on a truthy format that is not a string); lodash's
    [_.isInteger] is only applied to results of [parseInt], where it is
    false exactly on [NaN].  Numbers are integers or [NaN] (no fractions,
    [Infinity] or [-0]); a digit string beyond 2^53 parses to its exact
    value, where JavaScript rounds it to a double.  The TypeScript
    interface [stringOption] of basic.ts lines 32-36 is erased at run
    time; the model reads [min], [max] and [len] of any value, so its
    theorems cover the calls the type checker would reject as well.  The Mock entry point of lsd/src/index and the tests
    are not in the model. *)

From Stdlib Require Import ZArith List Lia Bool.
Import ListNotations.

(** ** Completions and the JavaScript effect monad

    The modelled TypeScript functions read hidden state ([Math.random],
    [new Date()]) and may throw a [TypeError].  A computation is a
    function of the state of the random source that returns either a
    normal completion or a thrown error, with the state after the call. *)

Inductive js_error :=
| TypeError (what : list Z).

Inductive completion (A : Type) :=
| Normal (a : A)
| Throw (e : js_error).
Arguments Normal {A} a.
Arguments Throw {A} e.

Definition js (S A : Type) : Type := S -> completion A * S.

Definition js_ret {S A} (a : A) : js S A := fun s => (Normal a, s).
Definition js_throw {S A} (e : js_error) : js S A := fun s => (Throw e, s).
Definition js_bind {S A B} (m : js S A) (k : A -> js S B) : js S B :=
  fun s =>
    match m s with
    | (Normal a, s') => k a s'
    | (Throw e, s') => (Throw e, s')
    end.

Declare Scope js_scope.
Delimit Scope js_scope with js.
Notation "'let*' x ':=' m 'in' k" := (js_bind m (fun x => k))
  (at level 10, x pattern, m at level 100, k at level 200) : js_scope.
Notation "'ret' a" := (js_ret a) (at level 10) : js_scope.
Open Scope js_scope.

(** The value of a computation, forgetting the final state. *)
Definition js_eval {S A} (m : js S A) (s : S) : completion A := fst (m s).

(** ** Greedy backtracking: try candidates from the largest down

    [try_desc n lo f] tries [f n], [f (n-1)], ..., [f lo] and returns the
    first success; this is the order in which a greedy quantifier of a
    JavaScript regular expression backtracks. *)
Fixpoint try_desc {R} (n lo : nat) (f : nat -> option R) : option R :=
  if Nat.ltb n lo then None
  else match f n with
       | Some r => Some r
       | None => match n with O => None | S n' => try_desc n' lo f end
       end.

(** ** Prefixes of a list: [take_while] and [drop_while] *)

Fixpoint take_while {A} (p : A -> bool) (l : list A) : list A :=
  match l with
  | [] => []
  | x :: r => if p x then x :: take_while p r else []
  end.

Fixpoint drop_while {A} (p : A -> bool) (l : list A) : list A :=
  match l with
  | [] => []
  | x :: r => if p x then drop_while p r else l
  end.

(** ** Proof automation *)

Create HintDb mock discriminated.
Create Rewrite HintDb mock_rw.

Lemma js_bind_ret {S A B} (a : A) (k : A -> js S B) : js_bind (js_ret a) k = k a.
Proof. reflexivity. Qed.

Lemma js_bind_throw {S A B} e (k : A -> js S B) : js_bind (js_throw e) k = js_throw e.
Proof. reflexivity. Qed.

Lemma js_bind_assoc {S A B C} (m : js S A) (k : A -> js S B) (h : B -> js S C) s :
  js_bind (js_bind m k) h s = js_bind m (fun a => js_bind (k a) h) s.
Proof. unfold js_bind. destruct (m s) as [[a|e] s']; reflexivity. Qed.

Lemma js_eval_bind_ret {S A B} (m : js S A) (f : A -> B) s a :
  js_eval m s = Normal a -> js_eval (js_bind m (fun x => js_ret (f x))) s = Normal (f a).
Proof. unfold js_eval, js_bind. destruct (m s) as [[x|e] s']; simpl; congruence. Qed.

Lemma js_eval_bind_throw {S A B} (m : js S A) (k : A -> js S B) s e :
  js_eval m s = Throw e -> js_eval (js_bind m k) s = Throw e.
Proof. unfold js_eval, js_bind. destruct (m s) as [[x|e'] s']; simpl; congruence. Qed.

(** A computation that either returns, or throws and leaves the state as
    it was: it throws exactly in the second case, and never after an
    effect. *)
Lemma throws_iff_of_cases {S A} (m : js S A) (s : S) (P : Prop) :
  (~ P /\ exists a s', m s = (Normal a, s')) \/ (P /\ exists e, m s = (Throw e, s)) ->
  ((exists e s', m s = (Throw e, s')) <-> P) /\ (forall e s', m s = (Throw e, s') -> s' = s).
Proof.
  intros [[HP (a & s1 & Hm)] | [HP (e0 & Hm)]]; rewrite Hm.
  - split; [split; [intros (? & ? & [=]) | intros; contradiction] | intros ? ? [=]].
  - split; [split; [intros _; exact HP | intros _; eauto] | intros ? ? [= _ <-]; reflexivity].
Qed.

#[export] Hint Rewrite @js_bind_ret @js_bind_throw : mock_rw.

(** ** Generic lemmas on prefixes *)

Section TakeWhile.
Context {A : Type} (p : A -> bool).

Lemma take_drop_while (l : list A) : take_while p l ++ drop_while p l = l.
Proof. induction l as [|x r IH]; simpl; [reflexivity|]. destruct (p x); simpl; congruence. Qed.

Lemma take_while_all (l : list A) : forallb p l = true -> take_while p l = l.
Proof.
  induction l as [|x r IH]; simpl; [reflexivity|].
  intros H. apply andb_prop in H as [-> H]. now rewrite IH.
Qed.

Lemma take_while_forall (l : list A) : forallb p (take_while p l) = true.
Proof. induction l as [|x r IH]; simpl; [reflexivity|]. destruct (p x) eqn:E; simpl; now rewrite ?E, ?IH. Qed.

Lemma drop_while_head (l : list A) x r : drop_while p l = x :: r -> p x = false.
Proof.
  induction l as [|y l IH]; simpl; [discriminate|].
  destruct (p y) eqn:E; [exact IH|]. intros [= <- <-]. exact E.
Qed.

Lemma take_while_app_stop (l1 l2 : list A) x :
  forallb p l1 = true -> p x = false -> take_while p (l1 ++ x :: l2) = l1.
Proof.
  intros H1 Hx. induction l1 as [|y l1 IH]; simpl in *.
  - now rewrite Hx.
  - apply andb_prop in H1 as [-> H1]. now rewrite IH.
Qed.
(** [l] is empty or starts with an element that fails [p]. *)
Definition stops_at (l : list A) : bool :=
  match l with [] => true | x :: _ => negb (p x) end.

Lemma take_while_app_stops (l1 l2 : list A) :
  forallb p l1 = true -> stops_at l2 = true -> take_while p (l1 ++ l2) = l1.
Proof.
  intros H1 H2. induction l1 as [|y l1 IH]; simpl in *.
  - destruct l2 as [|x l2]; [reflexivity|]. apply negb_true_iff in H2. cbn. now rewrite H2.
  - apply andb_prop in H1 as [-> H1]. now rewrite IH.
Qed.

Lemma drop_while_app_stops (l1 l2 : list A) :
  forallb p l1 = true -> stops_at l2 = true -> drop_while p (l1 ++ l2) = l2.
Proof.
  intros H1 H2. induction l1 as [|y l1 IH]; simpl in *.
  - destruct l2 as [|x l2]; [reflexivity|]. apply negb_true_iff in H2. cbn. now rewrite H2.
  - apply andb_prop in H1 as [-> H1]. now rewrite IH.
Qed.
End TakeWhile.

#[export] Hint Resolve take_drop_while take_while_forall : mock.

Section TakeWhilePositions.
Context {A : Type} (p : A -> bool).

Lemma drop_while_skipn (l : list A) : drop_while p l = skipn (length (take_while p l)) l.
Proof. induction l as [|x r IH]; simpl; [reflexivity|]. now destruct (p x). Qed.

Lemma firstn_take_while (l : list A) : firstn (length (take_while p l)) l = take_while p l.
Proof. induction l as [|x r IH]; simpl; [reflexivity|]. destruct (p x); simpl; congruence. Qed.

(** Every unit before the end of the run satisfies [p] ... *)
Lemma take_while_nth (l : list A) j :
  (j < length (take_while p l))%nat -> exists x, nth_error l j = Some x /\ p x = true.
Proof.
  revert j. induction l as [|x r IH]; intros j Hj; simpl in *; [lia|].
  destruct (p x) eqn:Hx; simpl in Hj; [|lia].
  destruct j as [|j]; simpl; [eauto|]. apply IH. lia.
Qed.

(** ... and the unit just after it, if any, does not. *)
Lemma take_while_stop (l : list A) x :
  nth_error l (length (take_while p l)) = Some x -> p x = false.
Proof.
  induction l as [|y r IH]; simpl; [discriminate|].
  destruct (p y) eqn:Hy; simpl; [exact IH|]. now intros [= <-].
Qed.
End TakeWhilePositions.

(** ** Lemmas on greedy backtracking *)

Section TryDesc.
Context {R : Type}.

Lemma try_desc_ext (f g : nat -> option R) n lo :
  (forall j, (lo <= j <= n)%nat -> f j = g j) -> try_desc n lo f = try_desc n lo g.
Proof.
  induction n as [|n IH]; intros H; cbn [try_desc].
  - destruct (Nat.ltb_spec 0 lo); [reflexivity|]. rewrite H by lia. reflexivity.
  - destruct (Nat.ltb_spec (S n) lo); [reflexivity|]. rewrite H by lia.
    destruct (g (S n)); [reflexivity|]. apply IH. intros j Hj. apply H. lia.
Qed.

Lemma try_desc_none (f : nat -> option R) n lo :
  (forall j, (lo <= j <= n)%nat -> f j = None) -> try_desc n lo f = None.
Proof.
  induction n as [|n IH]; intros H; cbn [try_desc].
  - destruct (Nat.ltb_spec 0 lo); [reflexivity|]. rewrite H by lia. reflexivity.
  - destruct (Nat.ltb_spec (S n) lo); [reflexivity|]. rewrite H by lia.
    apply IH. intros j Hj. apply H. lia.
Qed.

(** When every candidate below the largest fails, only the largest counts. *)
Lemma try_desc_top (f : nat -> option R) n lo :
  (lo <= n)%nat -> (forall j, (lo <= j < n)%nat -> f j = None) -> try_desc n lo f = f n.
Proof.
  intros Hle Hnone. destruct n as [|n]; cbn [try_desc].
  - destruct (Nat.ltb_spec 0 lo); [lia|]. now destruct (f 0).
  - destruct (Nat.ltb_spec (S n) lo); [lia|]. destruct (f (S n)); [reflexivity|].
    apply try_desc_none. intros j Hj. apply Hnone. lia.
Qed.
End TryDesc.

Lemma try_desc_S {R} n lo (f : nat -> option R) :
  try_desc (S n) lo f =
  if (S n <? lo)%nat then None
  else match f (S n) with Some r => Some r | None => try_desc n lo f end.
Proof. reflexivity. Qed.

(** The largest [j] in [lo .. n] with [P j], tried from the top. *)
Definition last_desc (P : nat -> bool) (n lo : nat) : option nat :=
  try_desc n lo (fun j => if P j then Some j else None).

Lemma try_desc_last {R} (P : nat -> bool) (g : nat -> R) n lo :
  try_desc n lo (fun j => if P j then Some (g j) else None) = option_map g (last_desc P n lo).
Proof.
  unfold last_desc. induction n as [|n IH]; cbn [try_desc].
  - destruct (0 <? lo)%nat; [reflexivity|]. now destruct (P 0).
  - destruct (S n <? lo)%nat; [reflexivity|]. rewrite IH. now destruct (P (S n)).
Qed.

Lemma last_desc_S0 (P : nat -> bool) n :
  last_desc P (S n) 0 =
  match last_desc (fun j => P (S j)) n 0 with
  | Some j => Some (S j)
  | None => if P 0 then Some 0 else None
  end.
Proof.
  unfold last_desc. induction n as [|n IH].
  - simpl. now destruct (P 1), (P 0).
  - rewrite (try_desc_S (S n)), IH, (try_desc_S n). cbn -[try_desc].
    destruct (P (S (S n))), (P (S n)); reflexivity.
Qed.

(** ** Generic lemmas on lists *)

Lemma firstn_app_length {A} (l1 l2 : list A) : firstn (length l1) (l1 ++ l2) = l1.
Proof. rewrite firstn_app, firstn_all, Nat.sub_diag. apply app_nil_r. Qed.

(** ** Generic lemmas on integers *)

Lemma Z_div_eq_iff (x c j : Z) : (0 < c)%Z -> (x / c = j <-> j * c <= x < (j + 1) * c)%Z.
Proof.
  intros Hc. split.
  - intros <-. split; [rewrite Z.mul_comm; apply Z.mul_div_le; lia|].
    rewrite Z.mul_comm. apply Z.mul_succ_div_gt. lia.
  - intros Hx. symmetry. apply (Z.div_unique_pos x c j (x - j * c)); lia.
Qed.

(** ** Transition systems

    Runs of a transition relation [R]: [star R a b] when [b] is reached
    from [a] in zero or more steps; [terminates R a] when every run from
    [a] is finite. *)

Section Star.
Context {A : Type} (R : A -> A -> Prop).

Inductive star : A -> A -> Prop :=
| star_refl a : star a a
| star_step a b c : R a b -> star b c -> star a c.

Definition terminates : A -> Prop := Acc (fun b a => R a b).

Lemma star_one a b : R a b -> star a b.
Proof. intros H. eapply star_step; [exact H|constructor]. Qed.

Lemma star_trans a b c : star a b -> star b c -> star a c.
Proof. induction 1 as [|a b' b Hab _ IH]; [auto|]. intros Hc. eapply star_step; eauto. Qed.

(** A property kept by every step holds all along a run. *)
Lemma star_invariant (P : A -> Prop) :
  (forall a b, P a -> R a b -> P b) -> forall a b, star a b -> P a -> P b.
Proof. intros Hstep a b Hs. induction Hs as [|a b c Hab _ IH]; eauto. Qed.

(** A measure that every step decreases bounds every run. *)
Lemma measure_terminates (m : A -> nat) :
  (forall a b, R a b -> (m b < m a)%nat) -> forall a, terminates a.
Proof.
  intros Hm a. induction a as [a IH] using (well_founded_induction (well_founded_ltof A m)).
  constructor. intros b Hb. apply IH. exact (Hm a b Hb).
Qed.

Section Deterministic.
Hypothesis R_det : forall a b c, R a b -> R a c -> b = c.

(** In a deterministic system, a run to a final state passes through
    every state reachable from the same start. *)
Lemma star_det_final a b c :
  star a b -> star a c -> (forall d, ~ R c d) -> star b c.
Proof.
  intros Hab. revert c. induction Hab as [a|a a' b Ha _ IH]; intros c Hac Hc; [exact Hac|].
  destruct Hac as [|a a'' c Ha' Hac]; [exfalso; exact (Hc _ Ha)|].
  rewrite (R_det _ _ _ Ha Ha') in IH. exact (IH c Hac Hc).
Qed.

Lemma star_final_unique a b c :
  star a b -> star a c -> (forall d, ~ R b d) -> (forall d, ~ R c d) -> b = c.
Proof.
  intros Hab Hac Hb Hc. destruct (star_det_final a b c Hab Hac Hc) as [|b b' c Hb' _]; [reflexivity|].
  exfalso. exact (Hb _ Hb').
Qed.
End Deterministic.
End Star.

#[export] Hint Constructors star : mock.
#[export] Hint Resolve star_one star_trans : mock.
