(* ===== verification/JsValue.v ===== *)
(** * JsValue: the JavaScript values and built-ins the source relies on

    Strings are sequences of UTF-16 code units ([list Z]); numbers are
    integers ([Z]) or [NaN]; plain objects are association lists of own
    properties.  The file gives the built-ins the code calls: [ToString]
    (['' + v] and [v.toString()], with the
    [TypeError] of an object whose own [toString] is not a function),
    [parseInt(s, 10)], [Number(s)] on a
    digit string, truthiness ([||], [filter(Boolean)], [!x]),
    destructuring ([const {a, b} = o]), [String.prototype.split] with a
    one-unit separator, [charAt], and the [typeof] of a value. *)

From Stdlib Require Import ZArith Lia Bool String Ascii List.
From S2P Require Import Prelude.
Import ListNotations.
Open Scope Z_scope.

(** ** Strings *)

Definition jsstr := list Z.

(** An ASCII literal as a list of code units. *)
Definition lit (s : string) : jsstr :=
  map (fun c => Z.of_nat (nat_of_ascii c)) (list_ascii_of_string s).

Fixpoint str_eqb (a b : jsstr) : bool :=
  match a, b with
  | [], [] => true
  | x :: a', y :: b' => (x =? y) && str_eqb a' b'
  | _, _ => false
  end.

(** ** Values *)

#[warnings="-register-all"]
Inductive jsval :=
| JUndefined
| JNull
| JBool (b : bool)
| JNum (n : Z)
| JNaN
| JStr (s : jsstr)
| JObj (props : list (jsstr * jsval)).

(** The types [typeof] distinguishes among these values. *)
Inductive jstype := TUndefined | TObject | TBoolean | TNumber | TString.

(** [typeof v]: [null] is an object, [NaN] a number. *)
Definition typeof (v : jsval) : jstype :=
  match v with
  | JUndefined => TUndefined
  | JNull | JObj _ => TObject
  | JBool _ => TBoolean
  | JNum _ | JNaN => TNumber
  | JStr _ => TString
  end.

(** ** Number.prototype.toString on integers (radix 10) *)

Definition digit_char (d : Z) : Z := 48 + d.

Fixpoint digits_aux (fuel : nat) (n : Z) (acc : jsstr) : jsstr :=
  match fuel with
  | O => acc
  | S f =>
      let acc' := digit_char (n mod 10) :: acc in
      if n <? 10 then acc' else digits_aux f (n / 10) acc'
  end.

(** Decimal digits of [n >= 0]; a number has at most [log2 n + 1]
    decimal digits, which bounds the loop. *)
Definition nat_to_decimal (n : Z) : jsstr :=
  digits_aux (S (Z.to_nat (Z.log2 n))) n [].

Definition number_to_string (n : Z) : jsstr :=
  if n <? 0 then 45 :: nat_to_decimal (- n) else nat_to_decimal n.

(** ToString(v), as in ['' + v]. *)
Definition to_js_string (v : jsval) : jsstr :=
  match v with
  | JUndefined => lit "undefined"
  | JNull => lit "null"
  | JBool true => lit "true"
  | JBool false => lit "false"
  | JNum n => number_to_string n
  | JNaN => lit "NaN"
  | JStr s => s
  | JObj _ => lit "[object Object]"
  end.

(** Whether a plain object has an own [toString] property.  No value of
    the model is a function, so an own [toString] is never callable; a
    plain object without one inherits [Object.prototype.toString]. *)
Definition has_own_toString (v : jsval) : bool :=
  match v with
  | JObj ps => existsb (fun kv => str_eqb (fst kv) (lit "toString")) ps
  | _ => false
  end.

(** ['' + v]: ToPrimitive, then ToString.  For a plain object,
    OrdinaryToPrimitive tries [valueOf] ([Object.prototype.valueOf]
    returns the object itself; an own [valueOf] is not callable) and then
    [toString]: the inherited one gives ['[object Object]'], an own one
    is not callable and the conversion throws a [TypeError]. *)
Definition concat_string {S} (v : jsval) : js S jsstr :=
  if has_own_toString v
  then js_throw (TypeError (lit "Cannot convert object to primitive value"))
  else ret (to_js_string v).

(** [v.toString()]: a method call, which throws on [undefined] and
    [null], and on an object whose own [toString] is not a function. *)
Definition call_toString {S} (v : jsval) : js S jsstr :=
  match v with
  | JUndefined | JNull =>
      js_throw (TypeError (lit "Cannot read properties of null (reading 'toString')"))
  | _ =>
      if has_own_toString v then js_throw (TypeError (lit "toString is not a function"))
      else ret (to_js_string v)
  end.

(** ** Truthiness *)

Definition truthy (v : jsval) : bool :=
  match v with
  | JUndefined | JNull | JNaN => false
  | JBool b => b
  | JNum n => negb (n =? 0)
  | JStr s => match s with [] => false | _ => true end
  | JObj _ => true
  end.

(** [v || {}] *)
Definition or_empty (v : jsval) : jsval := if truthy v then v else JObj [].

(** ** Property access and destructuring *)

Fixpoint assoc_get (k : jsstr) (ps : list (jsstr * jsval)) : jsval :=
  match ps with
  | [] => JUndefined
  | (k', v) :: ps' => if str_eqb k k' then v else assoc_get k ps'
  end.

(** The value of property [k] of [o].  Primitive wrappers have no own
    property among the keys the code reads ([min], [max], [len],
    [format]); a string has a [length]. *)
Definition prop (o : jsval) (k : jsstr) : jsval :=
  match o with
  | JObj ps => assoc_get k ps
  | JStr s => if str_eqb k (lit "length") then JNum (Z.of_nat (List.length s)) else JUndefined
  | _ => JUndefined
  end.

(** [GetV(o, k)] after [RequireObjectCoercible(o)], the step behind
    [const {k} = o]. *)
Definition get_v {S} (o : jsval) (k : jsstr) : js S jsval :=
  match o with
  | JUndefined | JNull =>
      js_throw (TypeError (lit "Cannot destructure an undefined or null value"))
  | _ => ret (prop o k)
  end.

(** A destructuring default, [{k = d} = o]: [d] replaces [undefined]. *)
Definition default_undef (v d : jsval) : jsval :=
  match v with JUndefined => d | _ => v end.

(** ** parseInt(s, 10) *)

(** StrWhiteSpaceChar: WhiteSpace and LineTerminator code units. *)
Definition is_js_whitespace (c : Z) : bool :=
  ((9 <=? c) && (c <=? 13)) || (c =? 32) || (c =? 160) || (c =? 5760)
  || ((8192 <=? c) && (c <=? 8202)) || (c =? 8232) || (c =? 8233)
  || (c =? 8239) || (c =? 8287) || (c =? 12288) || (c =? 65279).

Definition is_digit (c : Z) : bool := (48 <=? c) && (c <=? 57).

Definition digits_value (ds : jsstr) : Z :=
  fold_left (fun acc c => acc * 10 + (c - 48)) ds 0.

(** [None] is [NaN]. *)
Definition parse_int10 (s : jsstr) : option Z :=
  let s1 := drop_while is_js_whitespace s in
  let '(sign, s2) :=
    match s1 with
    | c :: r => if c =? 45 then (-1, r) else if c =? 43 then (1, r) else (1, s1)
    | [] => (1, [])
    end in
  match take_while is_digit s2 with
  | [] => None
  | ds => Some (sign * digits_value ds)
  end.

Definition num_of_parse (o : option Z) : jsval :=
  match o with Some z => JNum z | None => JNaN end.

(** ** Strings of digits *)

(** [Number(s)] on a string of decimal digits is its decimal value. *)
Definition number_of_digits (s : jsstr) : jsval := JNum (digits_value s).

(** ** String.prototype.split with a one-unit separator *)

Fixpoint split_on (sep : Z) (s : jsstr) : list jsstr :=
  match s with
  | [] => [[]]
  | c :: r =>
      let parts := split_on sep r in
      if c =? sep then [] :: parts
      else match parts with
           | p :: ps => (c :: p) :: ps
           | [] => [[c]]
           end
  end.

Fixpoint join_with (sep : Z) (parts : list jsstr) : jsstr :=
  match parts with
  | [] => []
  | [p] => p
  | p :: ps => p ++ sep :: join_with sep ps
  end.

(** [parts.filter(Boolean)] *)
Definition filter_truthy (parts : list jsstr) : list jsstr :=
  filter (fun p => truthy (JStr p)) parts.

(** ** String.prototype.charAt *)

Definition char_at (s : jsstr) (pos : jsval) : jsstr :=
  let i := match pos with JNum z => z | _ => 0 end in
  if (0 <=? i) && (i <? Z.of_nat (List.length s))
  then match nth_error s (Z.to_nat i) with Some c => [c] | None => [] end
  else [].

(** ** Lemmas: decimal printing and parsing *)

Lemma digits_value_app (l : jsstr) c :
  digits_value (l ++ [c]) = digits_value l * 10 + (c - 48).
Proof. unfold digits_value. now rewrite fold_left_app. Qed.

Lemma digits_aux_acc f n acc : digits_aux f n acc = digits_aux f n [] ++ acc.
Proof.
  revert n acc. induction f as [|f IH]; intros n acc; simpl; [reflexivity|].
  destruct (n <? 10); [reflexivity|].
  rewrite IH, (IH _ [_]), <- app_assoc. reflexivity.
Qed.

Lemma digits_aux_S f n acc :
  digits_aux (S f) n acc =
  if n <? 10 then digit_char (n mod 10) :: acc
  else digits_aux f (n / 10) [] ++ digit_char (n mod 10) :: acc.
Proof. simpl. destruct (n <? 10); [reflexivity|]. apply digits_aux_acc. Qed.

Lemma is_digit_char n : 0 <= n < 10 -> is_digit (digit_char n) = true.
Proof. intros H. unfold is_digit, digit_char. apply andb_true_intro; split; apply Z.leb_le; lia. Qed.

(** The digits printed for [n] with enough fuel: a nonempty string of
    decimal digits whose value is [n]. *)
Lemma digits_aux_spec f n :
  0 <= n < 10 ^ Z.of_nat (S f) ->
  let ds := digits_aux (S f) n [] in
  ds <> [] /\ forallb is_digit ds = true /\ digits_value ds = n.
Proof.
  revert n. induction f as [|f IH]; intros n Hn; cbn zeta;
    (assert (Hm : 0 <= n mod 10 < 10) by (apply Z.mod_pos_bound; lia));
    rewrite digits_aux_S; destruct (Z.ltb_spec n 10).
  1, 3: rewrite Z.mod_small by lia; simpl; rewrite is_digit_char by lia;
    split; [discriminate|]; split; [reflexivity|];
    unfold digits_value, digit_char; cbn [fold_left]; lia.
  - exfalso. simpl in Hn. lia.
  - assert (Hq : 0 <= n / 10 < 10 ^ Z.of_nat (S f)).
    { rewrite Nat2Z.inj_succ, Z.pow_succ_r in Hn by lia.
      split; [apply Z.div_pos; lia|]. apply Z.div_lt_upper_bound; lia. }
    destruct (IH _ Hq) as (Hne & Hall & Hval).
    split; [intros Happ; apply app_eq_nil in Happ as [_ Happ]; discriminate|].
    split.
    + rewrite forallb_app, Hall. simpl. now rewrite is_digit_char.
    + rewrite digits_value_app, Hval. unfold digit_char. pose proof (Z.div_mod n 10). lia.
Qed.

Lemma decimal_fuel n : 0 <= n -> n < 10 ^ Z.of_nat (S (Z.to_nat (Z.log2 n))).
Proof.
  intros Hn. rewrite Nat2Z.inj_succ, Z2Nat.id by apply Z.log2_nonneg.
  apply Z.lt_le_trans with (2 ^ Z.succ (Z.log2 n)).
  - destruct (Z.eq_dec n 0) as [->|]; [reflexivity|].
    apply Z.log2_spec. lia.
  - apply Z.pow_le_mono_l. lia.
Qed.

Lemma nat_to_decimal_spec n :
  0 <= n ->
  nat_to_decimal n <> [] /\ forallb is_digit (nat_to_decimal n) = true
  /\ digits_value (nat_to_decimal n) = n.
Proof. intros Hn. apply digits_aux_spec. split; [lia|]. now apply decimal_fuel. Qed.

Lemma is_digit_not_space c : is_digit c = true -> is_js_whitespace c = false.
Proof.
  unfold is_digit. intros H. apply andb_prop in H as [H1 H2].
  apply Z.leb_le in H1, H2.
  assert (c = 48 \/ c = 49 \/ c = 50 \/ c = 51 \/ c = 52 \/ c = 53 \/ c = 54
          \/ c = 55 \/ c = 56 \/ c = 57) as Hc by lia.
  repeat destruct Hc as [-> | Hc]; try reflexivity; subst; reflexivity.
Qed.

Lemma is_digit_sign c : is_digit c = true -> (c =? 45) = false /\ (c =? 43) = false.
Proof.
  unfold is_digit. intros H. apply andb_prop in H as [H1 H2].
  apply Z.leb_le in H1, H2. split; apply Z.eqb_neq; lia.
Qed.

(** [parseInt] reads a whole nonempty digit string, with an optional
    leading minus sign, as its decimal value. *)
Lemma parse_int10_digits (sign : bool) (ds : jsstr) :
  ds <> [] -> forallb is_digit ds = true ->
  parse_int10 ((if sign then [45] else []) ++ ds)
  = Some ((if sign then -1 else 1) * digits_value ds).
Proof.
  intros Hne Hall. destruct ds as [|c r]; [congruence|].
  pose proof Hall as Hc. simpl in Hc. apply andb_prop in Hc as [Hc _].
  destruct (is_digit_sign c Hc) as [H45 H43].
  unfold parse_int10. destruct sign; simpl app.
  - change (drop_while is_js_whitespace (45 :: c :: r)) with (45 :: c :: r).
    cbv beta iota zeta. rewrite Z.eqb_refl. cbv beta iota zeta.
    rewrite take_while_all by exact Hall. reflexivity.
  - replace (drop_while is_js_whitespace (c :: r)) with (c :: r)
      by (simpl; now rewrite is_digit_not_space).
    cbv beta iota zeta. rewrite H45, H43. cbv beta iota zeta.
    rewrite take_while_all by exact Hall. reflexivity.
Qed.

(** Reading back a printed integer: [parseInt(n.toString(), 10)] is [n]. *)
Lemma parse_int10_number_to_string z : parse_int10 (number_to_string z) = Some z.
Proof.
  unfold number_to_string. destruct (Z.ltb_spec z 0).
  - destruct (nat_to_decimal_spec (- z)) as (Hne & Hall & Hv); [lia|].
    change (45 :: nat_to_decimal (- z)) with ([45] ++ nat_to_decimal (- z)).
    rewrite (parse_int10_digits true) by assumption. rewrite Hv. f_equal; lia.
  - destruct (nat_to_decimal_spec z) as (Hne & Hall & Hv); [lia|].
    change (nat_to_decimal z) with ([] ++ nat_to_decimal z).
    rewrite (parse_int10_digits false) by assumption. rewrite Hv. f_equal; lia.
Qed.

Lemma parse_int10_to_js_string z : parse_int10 (to_js_string (JNum z)) = Some z.
Proof. apply parse_int10_number_to_string. Qed.

#[export] Hint Rewrite parse_int10_to_js_string parse_int10_number_to_string : mock_rw.

(** [parseInt(s, 10)] skips leading white space, reads an optional
    sign and the longest run of decimal digits, and ignores the rest:
    ["  -12abc"] gives [-12], ["33px"] gives [33]. *)
Lemma parse_int10_prefix ws sg ds rest :
  forallb is_js_whitespace ws = true -> In sg [[]; [45]; [43]] ->
  ds <> [] -> forallb is_digit ds = true -> stops_at is_digit rest = true ->
  parse_int10 (ws ++ sg ++ ds ++ rest) = Some ((if str_eqb sg [45] then -1 else 1) * digits_value ds).
Proof.
  intros Hws Hsg Hne Hds Hrest. destruct ds as [|c ds']; [congruence|].
  pose proof Hds as Hc. cbn in Hc. apply andb_prop in Hc as [Hc _].
  destruct (is_digit_sign c Hc) as [H45 H43].
  assert (Ht : take_while is_digit (c :: ds' ++ rest) = c :: ds')
    by exact (take_while_app_stops is_digit (c :: ds') rest Hds Hrest).
  unfold parse_int10. rewrite drop_while_app_stops by
    (exact Hws || (destruct Hsg as [<-|[<-|[<-|[]]]]; cbn; [rewrite is_digit_not_space|..]; auto)).
  destruct Hsg as [<-|[<-|[<-|[]]]]; cbn [app]; cbv beta iota zeta;
    rewrite ?H45, ?H43; cbn -[take_while digits_value]; rewrite Ht; reflexivity.
Qed.

(** ** Lemmas: splitting on a separator *)

Lemma split_on_nonempty sep s : split_on sep s <> [].
Proof.
  destruct s as [|c r]; simpl; [discriminate|].
  destruct (c =? sep); [discriminate|]. destruct (split_on sep r); discriminate.
Qed.

(** No piece of a split contains the separator. *)
Lemma split_on_no_sep sep s : Forall (fun p => ~ In sep p) (split_on sep s).
Proof.
  induction s as [|c r IH]; simpl; [constructor; auto|].
  pose proof (split_on_nonempty sep r) as Hne.
  destruct (split_on sep r) as [|p ps]; [congruence|].
  inversion IH as [|? ? Hp Hps]; subst.
  destruct (Z.eqb_spec c sep) as [->|Hc].
  - constructor; [auto|]. constructor; assumption.
  - constructor; [|assumption]. intros [->|Hin]; [congruence|]. contradiction.
Qed.

Lemma filter_truthy_nonempty ps : Forall (fun p => p <> []) (filter_truthy ps).
Proof.
  apply Forall_forall. intros p Hin. unfold filter_truthy in Hin.
  apply filter_In in Hin as [_ Hp]. destruct p; [discriminate|congruence].
Qed.

(** Splitting undoes joining when no piece holds the separator. *)
Lemma split_on_app_sep sep p rest :
  ~ In sep p -> split_on sep (p ++ sep :: rest) = p :: split_on sep rest.
Proof.
  induction p as [|c p IH]; intros Hp; cbn [app split_on].
  - now rewrite Z.eqb_refl.
  - rewrite IH by (intros H; apply Hp; now right).
    destruct (Z.eqb_spec c sep) as [->|]; [exfalso; apply Hp; now left|reflexivity].
Qed.

Lemma split_on_single sep p : ~ In sep p -> split_on sep p = [p].
Proof.
  induction p as [|c p IH]; intros Hp; [reflexivity|]. cbn [split_on].
  rewrite IH by (intros H; apply Hp; now right).
  destruct (Z.eqb_spec c sep) as [->|]; [exfalso; apply Hp; now left|reflexivity].
Qed.

Lemma split_join sep ps :
  ps <> [] -> Forall (fun p => ~ In sep p) ps -> split_on sep (join_with sep ps) = ps.
Proof.
  induction ps as [|p [|p2 ps] IH]; intros Hne Hall; [congruence| |].
  - inversion Hall. now apply split_on_single.
  - inversion Hall as [|? ? Hp Hps]; subst. change (join_with sep (p :: p2 :: ps))
      with (p ++ sep :: join_with sep (p2 :: ps)).
    rewrite split_on_app_sep by exact Hp. f_equal. apply IH; [discriminate|exact Hps].
Qed.

Lemma filter_truthy_all ps : Forall (fun p => p <> []) ps -> filter_truthy ps = ps.
Proof.
  induction 1 as [|p ps Hp _ IH]; [reflexivity|]. unfold filter_truthy in *.
  destruct p as [|c p]; [congruence|]. cbn [filter]. change (truthy (JStr (c :: p))) with true.
  now rewrite IH.
Qed.

(** The decimal text of a natural number is a nonempty run of digits
    that reads back as the number. *)
Lemma number_to_string_digits n :
  0 <= n -> number_to_string n <> [] /\ forallb is_digit (number_to_string n) = true /\
    digits_value (number_to_string n) = n.
Proof.
  intros Hn. unfold number_to_string. rewrite (proj2 (Z.ltb_ge n 0) Hn).
  now apply nat_to_decimal_spec.
Qed.

(** ** Lemmas: string equality *)

Lemma str_eqb_eq a b : str_eqb a b = true -> a = b.
Proof.
  revert b. induction a as [|x a IH]; intros [|y b]; simpl; try discriminate; [reflexivity|].
  intros H. apply andb_prop in H as [Hxy Hab]. apply Z.eqb_eq in Hxy. subst. f_equal. now apply IH.
Qed.

(** ** Lemmas: destructuring *)

Lemma null_dec (v : jsval) : {v = JNull} + {v <> JNull}.
Proof. destruct v; (left; reflexivity) || (right; discriminate). Qed.

Lemma get_v_coercible {S} o k :
  o <> JUndefined -> o <> JNull -> @get_v S o k = ret (prop o k).
Proof. destruct o; intros; try congruence; reflexivity. Qed.

Lemma or_empty_coercible v : or_empty v <> JUndefined /\ or_empty v <> JNull.
Proof.
  unfold or_empty. destruct (truthy v) eqn:E; [|split; discriminate].
  destruct v; simpl in E; try discriminate; split; discriminate.
Qed.

(** ** Lemmas: conversions to strings *)

Lemma concat_string_ok {S} v :
  has_own_toString v = false -> @concat_string S v = ret (to_js_string v).
Proof. unfold concat_string. now intros ->. Qed.

Lemma concat_string_throws {S} v :
  has_own_toString v = true -> exists e, @concat_string S v = js_throw e.
Proof. unfold concat_string. intros ->. eexists; reflexivity. Qed.

(** A destructuring default is a number, which has no own [toString]. *)
Lemma has_own_toString_default v d :
  has_own_toString (default_undef v (JNum d)) = has_own_toString v.
Proof. now destruct v. Qed.
