(* ===== verification/Regex.v ===== *)
(** * Regex: the regular expressions of hl/src/parser.ts

    [RegexEngine] is a reference semantics for the fragment of
    JavaScript regular expressions that parser.ts uses: literal code
    units, character classes, greedy [*] and [+] over a class, capture
    groups and the anchors [^] and [$] (no flags).  Matching follows the
    ECMAScript backtracking order: a greedy quantifier first takes the
    longest run and gives back one unit at a time; [RegExp.prototype.exec]
    tries the start positions [0 .. length] from left to right.

    [Directive] instantiates it with the directive pattern of parser.ts
    line 10 ([@], a group [\w+], a literal [(], a group [.*] and a
    literal [)]) and with [/^\d+$/] (line 19), and gives single-pass
    scanners for both, proved equal to the reference matcher. *)

From Stdlib Require Import ZArith List Lia Bool.
From S2P Require Import Prelude JsValue.
Import ListNotations.
Open Scope Z_scope.

Module RegexEngine.

Inductive rnode :=
| RChar (c : Z)              (* a literal code unit *)
| RClass (p : Z -> bool)     (* one code unit of a class *)
| RStar (p : Z -> bool)      (* greedy [p*] *)
| RPlus (p : Z -> bool)      (* greedy [p+] *)
| RGroupOpen (i : nat)       (* [(] of capture group [i] *)
| RGroupClose (i : nat)      (* [)] of capture group [i] *)
| RBol                       (* [^] *)
| REol.                      (* [$] *)

Definition regex := list rnode.

(** A matcher state: the current position, the start of each open
    group, and the captured spans [(start, end)] of closed groups. *)
Record mstate := MState {
  ms_pos : nat;
  ms_open : list (nat * nat);
  ms_caps : list (nat * (nat * nat))
}.

Definition init_state (i : nat) : mstate := MState i [] [].

Definition advance (st : mstate) (j : nat) : mstate :=
  MState (ms_pos st + j) (ms_open st) (ms_caps st).

Fixpoint lookup_nat {A} (i : nat) (l : list (nat * A)) : option A :=
  match l with
  | [] => None
  | (k, v) :: l' => if Nat.eqb i k then Some v else lookup_nat i l'
  end.

Definition open_group (st : mstate) (i : nat) : mstate :=
  MState (ms_pos st) ((i, ms_pos st) :: ms_open st) (ms_caps st).

Definition close_group (st : mstate) (i : nat) : mstate :=
  let start := match lookup_nat i (ms_open st) with Some b => b | None => ms_pos st end in
  MState (ms_pos st) (ms_open st) ((i, (start, ms_pos st)) :: ms_caps st).

(** The longest run of units of class [p] at the front of [l]. *)
Definition run_length (p : Z -> bool) (l : jsstr) : nat := length (take_while p l).

Section Matcher.
Variable input : jsstr.

Definition unit_at (i : nat) : option Z := nth_error input i.

Fixpoint m (r : regex) (st : mstate) : option mstate :=
  match r with
  | [] => Some st
  | RChar c :: r' =>
      match unit_at (ms_pos st) with
      | Some c' => if c' =? c then m r' (advance st 1) else None
      | None => None
      end
  | RClass p :: r' =>
      match unit_at (ms_pos st) with
      | Some c' => if p c' then m r' (advance st 1) else None
      | None => None
      end
  | RStar p :: r' =>
      try_desc (run_length p (skipn (ms_pos st) input)) 0 (fun j => m r' (advance st j))
  | RPlus p :: r' =>
      try_desc (run_length p (skipn (ms_pos st) input)) 1 (fun j => m r' (advance st j))
  | RGroupOpen i :: r' => m r' (open_group st i)
  | RGroupClose i :: r' => m r' (close_group st i)
  | RBol :: r' => if Nat.eqb (ms_pos st) 0 then m r' st else None
  | REol :: r' => if Nat.eqb (ms_pos st) (length input) then m r' st else None
  end.

(** [RegExpBuiltinExec] without the [g] and [y] flags. *)
Fixpoint exec_from (r : regex) (fuel i : nat) : option (nat * mstate) :=
  match m r (init_state i) with
  | Some st => Some (i, st)
  | None => match fuel with O => None | S f => exec_from r f (S i) end
  end.

Definition regex_exec (r : regex) : option (nat * mstate) :=
  exec_from r (length input) 0.

(** The text of capture group [i], [undefined] if it did not take part. *)
Definition capture (st : mstate) (i : nat) : option jsstr :=
  match lookup_nat i (ms_caps st) with
  | Some (b, e) => Some (firstn (e - b) (skipn b input))
  | None => None
  end.
End Matcher.

End RegexEngine.

Module Directive.
Import RegexEngine.

(** [\w]: [A-Za-z0-9_] (no [u] or [i] flag). *)
Definition is_word_char (c : Z) : bool :=
  ((48 <=? c) && (c <=? 57)) || ((65 <=? c) && (c <=? 90))
  || ((97 <=? c) && (c <=? 122)) || (c =? 95).

(** LineTerminator, which [.] does not match. *)
Definition is_line_terminator (c : Z) : bool :=
  (c =? 10) || (c =? 13) || (c =? 8232) || (c =? 8233).

Definition not_line_terminator (c : Z) : bool := negb (is_line_terminator c).

(** The pattern of line 10: [@], group 1 [\w+], [\(], group 2 [.*], [\)]. *)
Definition directive_regex : regex :=
  [RChar 64; RGroupOpen 1; RPlus is_word_char; RGroupClose 1;
   RChar 40; RGroupOpen 2; RStar not_line_terminator; RGroupClose 2; RChar 41].

(** [/^\d+$/] *)
Definition digits_regex : regex := [RBol; RPlus is_digit; REol].

(** [(match[1], match[2])] of a successful match. *)
Definition groups (s : jsstr) (st : mstate) : option (jsstr * jsstr) :=
  match capture s st 1, capture s st 2 with
  | Some op, Some args => Some (op, args)
  | _, _ => None
  end.

(** [value.match(regex)] read as [(match[1], match[2])]. *)
Definition directive_match_ref (s : jsstr) : option (jsstr * jsstr) :=
  match regex_exec s directive_regex with
  | Some (_, st) => groups s st
  | None => None
  end.

(** [arg.match(/^\d+$/)] is not [null]. *)
Definition digits_match_ref (s : jsstr) : bool :=
  match regex_exec s digits_regex with Some _ => true | None => false end.

(** ** Single-pass scanners *)

(** The last [)] before the first line terminator, by index. *)
Fixpoint last_close (l : jsstr) (i : nat) (best : option nat) : option nat :=
  match l with
  | [] => best
  | c :: r =>
      if is_line_terminator c then best
      else last_close r (S i) (if c =? 41 then Some i else best)
  end.

(** The text after an [@]: a word, then [(], then the arguments up to
    the last [)] of the line. *)
Definition directive_at (rest : jsstr) : option (jsstr * jsstr) :=
  let w := take_while is_word_char rest in
  match w, drop_while is_word_char rest with
  | _ :: _, c :: body =>
      if c =? 40 then
        match last_close body 0 None with
        | Some j => Some (w, firstn j body)
        | None => None
        end
      else None
  | _, _ => None
  end.

Fixpoint scan_directive (s : jsstr) : option (jsstr * jsstr) :=
  match s with
  | [] => None
  | c :: r =>
      if c =? 64 then
        match directive_at r with
        | Some x => Some x
        | None => scan_directive r
        end
      else scan_directive r
  end.

Definition is_digit_string (s : jsstr) : bool :=
  match s with [] => false | _ => forallb is_digit s end.

(** [)] at index [j] of [l]. *)
Definition close_at (l : jsstr) (j : nat) : bool :=
  match nth_error l j with Some c => c =? 41 | None => false end.

(** The matcher state after matching the directive at [i], with a
    word of length [n] and arguments of length [j]. *)
Definition directive_final (i n j : nat) : mstate :=
  MState (i + 1 + n + 1 + j + 1)%nat
    [(2%nat, (i + 1 + n + 1)%nat); (1%nat, (i + 1)%nat)]
    [(2%nat, ((i + 1 + n + 1)%nat, (i + 1 + n + 1 + j)%nat));
     (1%nat, ((i + 1)%nat, (i + 1 + n)%nat))].

(** ** The scanner's search for the closing parenthesis *)

Lemma line_terminator_not_close c : is_line_terminator c = true -> (c =? 41) = false.
Proof.
  unfold is_line_terminator. intros H. apply Z.eqb_neq. intros ->. discriminate H.
Qed.

Lemma last_close_spec l i best :
  last_close l i best =
  match last_desc (close_at l) (run_length not_line_terminator l) 0 with
  | Some j => Some (i + j)%nat
  | None => best
  end.
Proof.
  revert i best. induction l as [|c r IH]; intros i best; [reflexivity|].
  unfold run_length, not_line_terminator; cbn [last_close take_while].
  destruct (is_line_terminator c) eqn:Hc; cbn [negb length].
  - unfold last_desc, close_at. cbn. now rewrite line_terminator_not_close.
  - rewrite last_desc_S0. change (fun j => close_at (c :: r) (S j)) with (close_at r).
    rewrite IH. unfold run_length, not_line_terminator.
    destruct (last_desc (close_at r) _ 0); [f_equal; lia|].
    unfold close_at; cbn. destruct (c =? 41); [f_equal; lia|reflexivity].
Qed.

Lemma close_at_skipn k s j : close_at (skipn k s) j = close_at s (k + j).
Proof. unfold close_at. now rewrite nth_error_skipn. Qed.

(** ** The reference matcher on the directive pattern *)

Lemma m_tail_star s st :
  m s [RStar not_line_terminator; RGroupClose 2; RChar 41] st =
  option_map (fun j => advance (close_group (advance st j) 2) 1)
    (last_desc (close_at (skipn (ms_pos st) s))
               (run_length not_line_terminator (skipn (ms_pos st) s)) 0).
Proof.
  cbn [m]. rewrite <- try_desc_last. apply try_desc_ext. intros j _.
  rewrite close_at_skipn. unfold close_at, unit_at. cbn [ms_pos advance close_group].
  destruct (nth_error s (ms_pos st + j)); reflexivity.
Qed.

(** A greedy [p+] followed by a unit [c] outside the class can only
    stop at the end of its run. *)
Lemma m_plus_stop s st p k c r :
  p c = false ->
  m s (RPlus p :: RGroupClose k :: RChar c :: r) st =
  let n := run_length p (skipn (ms_pos st) s) in
  if (1 <=? n)%nat then m s (RGroupClose k :: RChar c :: r) (advance st n) else None.
Proof.
  intros Hc. cbn zeta. cbn [m].
  destruct (Nat.leb_spec 1 (run_length p (skipn (ms_pos st) s))) as [Hn|Hn].
  - apply try_desc_top; [exact Hn|]. intros j Hj.
    destruct (take_while_nth p (skipn (ms_pos st) s) j) as (x & Hx & Hpx); [apply Hj|].
    rewrite nth_error_skipn in Hx. unfold unit_at. cbn [ms_pos advance close_group].
    rewrite Hx. destruct (Z.eqb_spec x c) as [->|]; [congruence|reflexivity].
  - replace (run_length p (skipn (ms_pos st) s)) with 0%nat by lia. reflexivity.
Qed.

Lemma m_close_char_open s st k c k' r :
  m s (RGroupClose k :: RChar c :: RGroupOpen k' :: r) st =
  match unit_at s (ms_pos st) with
  | Some c' => if c' =? c then m s r (open_group (advance (close_group st k) 1) k') else None
  | None => None
  end.
Proof. reflexivity. Qed.

(** The reference matcher at start position [i], in closed form. *)
Lemma m_directive_spec s i :
  m s directive_regex (init_state i) =
  match nth_error s i with
  | Some c =>
      if c =? 64 then
        let n := run_length is_word_char (skipn (i + 1) s) in
        if (1 <=? n)%nat then
          match nth_error s (i + 1 + n) with
          | Some c' =>
              if c' =? 40 then
                let body := skipn (i + 1 + n + 1) s in
                option_map (directive_final i n)
                  (last_desc (close_at body) (run_length not_line_terminator body) 0)
              else None
          | None => None
          end
        else None
      else None
  | None => None
  end.
Proof.
  change (m s directive_regex (init_state i)) with
    (match unit_at s i with
     | Some c => if c =? 64 then
         m s [RPlus is_word_char; RGroupClose 1; RChar 40; RGroupOpen 2;
              RStar not_line_terminator; RGroupClose 2; RChar 41]
           (open_group (advance (init_state i) 1) 1)
         else None
     | None => None
     end).
  unfold unit_at. destruct (nth_error s i) as [c|]; [|reflexivity].
  destruct (c =? 64); [|reflexivity].
  rewrite m_plus_stop by reflexivity. cbn zeta. cbn [ms_pos open_group advance init_state].
  destruct (1 <=? _)%nat; [|reflexivity].
  rewrite m_close_char_open, m_tail_star. unfold unit_at.
  cbn [ms_pos open_group advance close_group init_state].
  destruct (nth_error s _) as [c'|]; [|reflexivity].
  destruct (c' =? 40); reflexivity.
Qed.

Lemma groups_final s i n j :
  groups s (directive_final i n j) =
  Some (firstn n (skipn (i + 1) s), firstn j (skipn (i + 1 + n + 1) s)).
Proof.
  unfold groups, capture, directive_final. cbn [lookup_nat ms_caps Nat.eqb].
  replace (i + 1 + n - (i + 1))%nat with n by lia.
  replace (i + 1 + n + 1 + j - (i + 1 + n + 1))%nat with j by lia.
  reflexivity.
Qed.

Lemma skipn_S_cons {A} k (l : list A) x r : skipn k l = x :: r -> skipn (S k) l = r.
Proof. intros H. change (S k) with (1 + k)%nat. now rewrite <- skipn_skipn, H. Qed.

(** The scanner after an [@] at [i], in the same closed form. *)
Lemma directive_at_spec s i :
  directive_at (skipn (i + 1) s) =
  let n := run_length is_word_char (skipn (i + 1) s) in
  if (1 <=? n)%nat then
    match nth_error s (i + 1 + n) with
    | Some c' =>
        if c' =? 40 then
          let body := skipn (i + 1 + n + 1) s in
          option_map (fun j => (firstn n (skipn (i + 1) s), firstn j body))
            (last_desc (close_at body) (run_length not_line_terminator body) 0)
        else None
    | None => None
    end
  else None.
Proof.
  unfold directive_at, run_length. rewrite drop_while_skipn, skipn_skipn. cbn zeta.
  rewrite (firstn_take_while is_word_char (skipn (i + 1) s)).
  remember (take_while is_word_char (skipn (i + 1) s)) as w eqn:Hw.
  replace (length w + (i + 1))%nat with (i + 1 + length w)%nat by lia.
  destruct w as [|x w]; [reflexivity|].
  cbn [length Nat.leb]. rewrite <- hd_error_skipn.
  destruct (skipn (i + 1 + S (length w)) s) as [|c body] eqn:Hk; [reflexivity|].
  cbn [hd_error]. destruct (c =? 40); [|reflexivity].
  replace (i + 1 + S (length w) + 1)%nat with (S (i + 1 + S (length w)))%nat by lia.
  rewrite (skipn_S_cons _ _ _ _ Hk), last_close_spec.
  destruct (last_desc _ _ 0); reflexivity.
Qed.

(** At each start position, the reference matcher and the scanner
    agree on [(match[1], match[2])], and a successful match always
    has both groups. *)
Lemma groups_at s i :
  match m s directive_regex (init_state i) with
  | Some st => groups s st
  | None => None
  end =
  match nth_error s i with
  | Some c => if c =? 64 then directive_at (skipn (i + 1) s) else None
  | None => None
  end.
Proof.
  rewrite m_directive_spec, directive_at_spec.
  destruct (nth_error s i) as [c|]; [|reflexivity].
  destruct (c =? 64); [|reflexivity]. cbn zeta.
  destruct (1 <=? _)%nat; [|reflexivity].
  destruct (nth_error s _) as [c'|]; [|reflexivity].
  destruct (c' =? 40); [|reflexivity].
  destruct (last_desc _ _ 0); [apply groups_final|reflexivity].
Qed.

Lemma m_directive_groups s i st :
  m s directive_regex (init_state i) = Some st -> groups s st <> None.
Proof.
  rewrite m_directive_spec. intros Hm. cbn zeta in Hm.
  repeat match type of Hm with
         | match ?x with _ => _ end = Some _ => destruct x; try discriminate
         | (if ?b then _ else _) = Some _ => destruct b; try discriminate
         end.
  destruct (last_desc _ _ 0); [|discriminate].
  cbn [option_map] in Hm. injection Hm as <-. rewrite groups_final. discriminate.
Qed.

Lemma exec_scan s fuel i :
  (length s <= fuel + i)%nat ->
  match exec_from s directive_regex fuel i with
  | Some (_, st) => groups s st
  | None => None
  end = scan_directive (skipn i s).
Proof.
  revert i. induction fuel as [|fuel IH]; intros i Hlen; cbn [exec_from];
    pose proof (groups_at s i) as Hg; pose proof (m_directive_groups s i) as Hok;
    rewrite <- hd_error_skipn in Hg;
    destruct (m s directive_regex (init_state i)) as [st|] eqn:Hm.
  - rewrite skipn_all2 in Hg |- * by lia. cbn in Hg. exfalso. exact (Hok st eq_refl Hg).
  - rewrite skipn_all2 by lia. reflexivity.
  - destruct (skipn i s) as [|c r] eqn:Hs; cbn [hd_error] in Hg; [exact Hg|].
    cbn [scan_directive]. destruct (c =? 64); [|exfalso; exact (Hok st eq_refl Hg)].
    replace (i + 1)%nat with (S i) in Hg by lia. rewrite (skipn_S_cons _ _ _ _ Hs) in Hg.
    rewrite <- Hg. destruct (groups s st) eqn:Hgr; [reflexivity|].
    exfalso. exact (Hok st eq_refl Hgr).
  - rewrite IH by lia.
    destruct (skipn i s) as [|c r] eqn:Hs; cbn [hd_error] in Hg.
    + rewrite skipn_all2; [reflexivity|]. apply (f_equal (@length Z)) in Hs.
      rewrite length_skipn in Hs. simpl in Hs. lia.
    + rewrite (skipn_S_cons _ _ _ _ Hs). cbn [scan_directive].
      destruct (c =? 64); [|reflexivity].
      replace (i + 1)%nat with (S i) in Hg by lia. rewrite (skipn_S_cons _ _ _ _ Hs) in Hg.
      now rewrite <- Hg.
Qed.

(** C7: The single-pass scanner computes exactly what [value.match] with
    the directive pattern yields as [(match[1], match[2])], including
    which [@] is chosen and where the arguments end. *)
Theorem scan_directive_correct s : scan_directive s = directive_match_ref s.
Proof.
  unfold directive_match_ref, regex_exec. symmetry.
  exact (exec_scan s (length s) 0 ltac:(lia)).
Qed.

(** ** The reference matcher on [/^\d+$/] *)

Lemma run_length_le p (l : jsstr) : (run_length p l <= length l)%nat.
Proof.
  unfold run_length. induction l as [|x r IH]; simpl; [lia|]. destruct (p x); simpl; lia.
Qed.

Lemma run_length_full p (l : jsstr) : run_length p l = length l <-> forallb p l = true.
Proof.
  unfold run_length. induction l as [|x r IH]; simpl; [tauto|].
  pose proof (run_length_le p r) as Hle. unfold run_length in Hle.
  destruct (p x); simpl; [rewrite <- IH; lia|]. split; [lia|discriminate].
Qed.

Lemma exec_digits_later s fuel i : exec_from s digits_regex fuel (S i) = None.
Proof. revert i. induction fuel as [|fuel IH]; intros i; cbn; [reflexivity|]. apply IH. Qed.

Lemma m_digits_spec s :
  m s digits_regex (init_state 0) =
  if is_digit_string s then Some (advance (init_state 0) (length s)) else None.
Proof.
  cbn [m digits_regex Nat.eqb ms_pos init_state]. rewrite skipn_O.
  pose proof (run_length_le is_digit s) as Hle.
  unfold is_digit_string. destruct s as [|c r] eqn:Hs; [reflexivity|].
  destruct (forallb is_digit (c :: r)) eqn:Hall;
    pose proof (run_length_full is_digit (c :: r)) as Hfull.
  - apply Hfull in Hall. rewrite Hall. cbn [length]. rewrite try_desc_S.
    cbn -[length]. rewrite Nat.eqb_refl. reflexivity.
  - apply try_desc_none. intros j Hj. cbn [ms_pos advance init_state].
    destruct (Nat.eqb_spec (0 + j) (length (c :: r))); [|reflexivity].
    exfalso. assert (run_length is_digit (c :: r) = length (c :: r)) as H by lia.
    apply Hfull in H. congruence.
Qed.

(** [RegExp.prototype.exec] with [/^\d+$/]: a match at position 0
    covering the whole string, or none. *)
Lemma digits_regex_exec s :
  regex_exec s digits_regex =
  if is_digit_string s then Some (0%nat, advance (init_state 0) (length s)) else None.
Proof.
  unfold regex_exec. destruct (length s) eqn:Hl; cbn [exec_from];
    rewrite m_digits_spec; rewrite ?Hl; destruct (is_digit_string s); try reflexivity.
  now rewrite exec_digits_later.
Qed.

(** C18: [arg.match(/^\d+$/)] succeeds exactly on nonempty strings of
    decimal digits: no sign, no decimal point, no exponent. *)
Theorem digits_match_correct s : digits_match_ref s = is_digit_string s.
Proof.
  unfold digits_match_ref. rewrite digits_regex_exec.
  now destruct (is_digit_string s).
Qed.


End Directive.
