(* ===== verification/RegexSpec.v ===== *)
(** * RegexSpec: what the directive pattern of hl/src/parser.ts matches

    A declarative reading of the pattern of parser.ts line 10, stated
    without the backtracking engine: the text after an [@] has the shape
    [w ( a ) post], where [w] is a nonempty run of word characters, [a]
    holds no line terminator and [post] has no [)] before the end of its
    line (the greedy [.*] takes the last [)] of the line); the match is
    the one of least [@] index (the engine tries start positions from
    the left).  The theorem [directive_match_leftmost] shows that
    [value.match(regex)] of the engine of [Regex] returns [(w, a)]
    exactly for that leftmost shape; [directive_match_none] that it
    returns [null] exactly when no [@] has that shape. *)

From Stdlib Require Import ZArith List Lia Bool.
From S2P Require Import Prelude JsValue Regex.
Import ListNotations.
Open Scope Z_scope.

Module DirectiveSpec.
Import RegexEngine Directive.

Definition not_close (c : Z) : bool := negb (c =? 41).

(** No [)] before the end of the line. *)
Definition no_close_on_line (post : jsstr) : bool :=
  forallb not_close (take_while not_line_terminator post).

(** The text [rest] after an [@] reads [w], [(], [a], [)], [post]. *)
Definition directive_shape (rest w a post : jsstr) : Prop :=
  rest = w ++ 40 :: a ++ 41 :: post /\ w <> [] /\ forallb is_word_char w = true /\
  forallb not_line_terminator a = true /\ no_close_on_line post = true.

(** An [@] at index [i] of [s] starts a directive with opcode [w] and
    argument text [a]. *)
Definition directive_at_pos (s : jsstr) (i : nat) (w a : jsstr) : Prop :=
  nth_error s i = Some 64 /\ exists post, directive_shape (skipn (S i) s) w a post.

(** ... and no [@] before it does. *)
Definition leftmost_directive (s : jsstr) (i : nat) (w a : jsstr) : Prop :=
  directive_at_pos s i w a /\ forall j w' a', directive_at_pos s j w' a' -> (i <= j)%nat.

(** What a scan result says of [s]. *)
Definition scan_sound (s : jsstr) (o : option (jsstr * jsstr)) : Prop :=
  match o with
  | Some (w, a) => exists i, leftmost_directive s i w a
  | None => forall i w a, ~ directive_at_pos s i w a
  end.

(** ** The last [)] of a line *)

Lemma last_close_no_close post k b : no_close_on_line post = true -> last_close post k b = b.
Proof.
  revert k b. induction post as [|c r IH]; intros k b H; [reflexivity|].
  cbn [last_close]. unfold no_close_on_line, not_line_terminator in H. cbn [take_while] in H.
  destruct (is_line_terminator c); [reflexivity|]. cbn [negb forallb] in H.
  apply andb_prop in H as [Hc Hr]. unfold not_close in Hc.
  destruct (c =? 41); [discriminate|]. now apply IH.
Qed.

Lemma last_close_shape a post i best :
  forallb not_line_terminator a = true -> no_close_on_line post = true ->
  last_close (a ++ 41 :: post) i best = Some (i + length a)%nat.
Proof.
  revert i best. induction a as [|c a IH]; intros i best Ha Hp.
  - cbn. rewrite last_close_no_close by exact Hp. f_equal; lia.
  - cbn [forallb] in Ha. apply andb_prop in Ha as [Hc Ha]. unfold not_line_terminator in Hc.
    cbn [app last_close]. destruct (is_line_terminator c); [discriminate|].
    rewrite IH by assumption. f_equal. simpl. lia.
Qed.

(** Either the line holds no [)], or [body] splits at its last [)]. *)
Lemma last_close_cases body i best :
  (last_close body i best = best /\ no_close_on_line body = true) \/
  exists a post, body = a ++ 41 :: post /\ forallb not_line_terminator a = true /\
    no_close_on_line post = true /\ last_close body i best = Some (i + length a)%nat.
Proof.
  revert i best. induction body as [|c r IH]; intros i best; [now left|].
  cbn [last_close]. unfold no_close_on_line at 1, not_line_terminator at 1. cbn [take_while].
  destruct (is_line_terminator c) eqn:Hlt; cbn [negb]; [now left|].
  destruct (IH (S i) (if c =? 41 then Some i else best))
    as [[-> Hr] | (a & post & -> & Ha & Hp & ->)].
  - destruct (Z.eqb_spec c 41) as [->|Hne].
    + right. exists [], r. repeat split; [exact Hr|]. f_equal; simpl; lia.
    + left. split; [reflexivity|]. cbn [forallb]. unfold not_close at 1.
      rewrite (proj2 (Z.eqb_neq _ _) Hne). exact Hr.
  - right. exists (c :: a), post. split; [reflexivity|].
    cbn [forallb]. unfold not_line_terminator at 1. rewrite Hlt.
    repeat split; [exact Ha|exact Hp|]. f_equal. simpl. lia.
Qed.

(** ** The directive after one [@] *)

Lemma directive_at_shape rest w a :
  directive_at rest = Some (w, a) <-> exists post, directive_shape rest w a post.
Proof.
  pose proof (take_drop_while is_word_char rest) as Hsplit.
  pose proof (take_while_forall is_word_char rest) as Hword.
  unfold directive_at. split.
  - remember (take_while is_word_char rest) as w0 eqn:Ew0.
    destruct w0 as [|x w1]; [discriminate|].
    destruct (drop_while is_word_char rest) as [|c body]; [discriminate|].
    destruct (Z.eqb_spec c 40) as [->|]; [|discriminate].
    destruct (last_close_cases body 0 None) as [[-> _] | (a0 & post & -> & Ha & Hp & ->)];
      [discriminate|].
    intros [= <- <-]. exists post. rewrite firstn_app_length.
    repeat split; [symmetry; exact Hsplit|discriminate|exact Hword|exact Ha|exact Hp].
  - intros (post & Hr & Hne & Hw & Ha & Hp).
    assert (Ht : take_while is_word_char rest = w)
      by (rewrite Hr; apply take_while_app_stop; [exact Hw|reflexivity]).
    rewrite Ht in Hsplit |- *. rewrite Hr in Hsplit at 2. apply app_inv_head in Hsplit.
    rewrite Hsplit. destruct w as [|x w]; [congruence|]. cbn [Z.eqb Pos.eqb].
    rewrite (last_close_shape a post 0 None Ha Hp). cbn [Nat.add].
    now rewrite firstn_app_length.
Qed.

Lemma at_pos_unique s i w a w' a' :
  directive_at_pos s i w a -> directive_at_pos s i w' a' -> w = w' /\ a = a'.
Proof.
  intros [_ H1] [_ H2]. apply directive_at_shape in H1, H2.
  rewrite H1 in H2. now injection H2.
Qed.

Lemma at_pos_0 c r w a :
  directive_at_pos (c :: r) 0 w a <-> c = 64 /\ exists post, directive_shape r w a post.
Proof.
  unfold directive_at_pos. cbn [nth_error skipn].
  split; intros [H1 H2]; [injection H1 as ->|subst]; auto.
Qed.

(** A directive needs a [(] in the value. *)
Lemma at_pos_open_paren s i w a : directive_at_pos s i w a -> In 40 s.
Proof.
  intros [_ (post & Hr & _)]. rewrite <- (firstn_skipn (S i) s), Hr.
  apply in_or_app. right. apply in_or_app. right. now left.
Qed.

(** ** The scanner finds the leftmost directive *)

(** A position that holds no directive can be skipped. *)
Lemma scan_sound_skip c r o :
  (forall w a, ~ directive_at_pos (c :: r) 0 w a) -> scan_sound r o -> scan_sound (c :: r) o.
Proof.
  intros H0 Hr. destruct o as [[w a]|]; cbn in Hr |- *.
  - destruct Hr as (i & Hi & Hmin). exists (S i). split; [exact Hi|].
    intros [|j] w' a' Hj; [exfalso; exact (H0 _ _ Hj)|]. apply Hmin in Hj. lia.
  - intros [|i] w a Hp; [exact (H0 _ _ Hp)|]. exact (Hr i w a Hp).
Qed.

Lemma scan_directive_sound s : scan_sound s (scan_directive s).
Proof.
  induction s as [|c r IH]; cbn [scan_directive].
  - intros i w a [H _]. destruct i; discriminate.
  - destruct (Z.eqb_spec c 64) as [->|Hc].
    + destruct (directive_at r) as [[w a]|] eqn:Hd.
      * exists 0%nat. split; [|intros; lia].
        apply at_pos_0. split; [reflexivity|]. now apply directive_at_shape.
      * apply scan_sound_skip; [|exact IH].
        intros w a Hp. apply at_pos_0 in Hp as [_ Hs]. apply directive_at_shape in Hs. congruence.
    + apply scan_sound_skip; [|exact IH]. intros w a Hp. apply at_pos_0 in Hp. tauto.
Qed.

Lemma directive_match_scan s : directive_match_ref s = scan_directive s.
Proof. unfold directive_match_ref, regex_exec. exact (exec_scan s (length s) 0 ltac:(lia)). Qed.

Lemma directive_match_sound s : scan_sound s (directive_match_ref s).
Proof. rewrite directive_match_scan. apply scan_directive_sound. Qed.

(** Two leftmost directives of one string are the same directive. *)
Lemma leftmost_unique s i w a i' w' a' :
  leftmost_directive s i w a -> leftmost_directive s i' w' a' -> i = i' /\ w = w' /\ a = a'.
Proof.
  intros [Hi Hmin] [Hi' Hmin'].
  assert (i = i') as <- by (apply Nat.le_antisymm; [eapply Hmin|eapply Hmin']; eassumption).
  destruct (at_pos_unique _ _ _ _ _ _ Hi Hi'). auto.
Qed.

Lemma directive_match_of_leftmost s i w a :
  leftmost_directive s i w a -> directive_match_ref s = Some (w, a).
Proof.
  intros Hl. pose proof (directive_match_sound s) as Hs.
  destruct (directive_match_ref s) as [[w' a']|]; cbn in Hs.
  - destruct Hs as (i' & Hi'). now destruct (leftmost_unique _ _ _ _ _ _ _ Hl Hi') as (_ & <- & <-).
  - exfalso. exact (Hs _ _ _ (proj1 Hl)).
Qed.

(** [value.match(regex)] is [null] exactly when no [@] of [value]
    starts a directive. *)
Lemma directive_match_none s :
  directive_match_ref s = None <-> forall i w a, ~ directive_at_pos s i w a.
Proof.
  pose proof (directive_match_sound s) as Hs.
  destruct (directive_match_ref s) as [[w a]|]; cbn in Hs; [|tauto].
  split; [discriminate|]. destruct Hs as (i & Hi & _). intros H. exfalso. exact (H _ _ _ Hi).
Qed.

(** C2: [value.match(regex)] with the directive pattern yields
    [(match[1], match[2]) = (w, a)] exactly when the leftmost [@] of
    [value] that starts a directive is followed by [w(a)], with [a]
    reaching the last [)] of its line. *)
Theorem directive_match_leftmost s w a :
  directive_match_ref s = Some (w, a) <-> exists i, leftmost_directive s i w a.
Proof.
  split; [|intros (i & Hi); exact (directive_match_of_leftmost s i w a Hi)].
  intros Hw. pose proof (directive_match_sound s) as Hs. now rewrite Hw in Hs.
Qed.

End DirectiveSpec.
