(* ===== verification/Random.v ===== *)
(** * Random: the generators of lsd/src/random/basic.ts

    The hidden state the generators read is abstracted by the class
    [RandomSource]: [Math.random()] returns [k / 2^53] for a draw
    [0 <= k < 2^53] (the doubles in [0, 1) on the 2^-53 grid that
    engines produce), and [new Date()] reads a clock within the range of
    valid time values.  The constants of ../utils/const are the class
    [StringBounds] ([STRING_MIN_LEN <= STRING_MAX_LEN]) and two default
    formats; [dayjs(d).format(f)] is the class [DateFormatter].

    Module [Basic] gives [integer], [char], [string], [_getLength],
    [boolean], [randomDate], [date] and [time], each a computation in
    the monad [js St] of the prelude.  Arithmetic is exact: the product
    [Math.random() * (max - min)] is the rational [k * (max - min) / 2^53]
    and [Math.round] is [floor (x + 1/2)], so rounding of the double
    product is not modelled.  The option interfaces [integerOption] and
    [formatOpt] are predicates on values, to state what the generators
    do when called as their TypeScript types declare. *)

From Stdlib Require Import ZArith Lia Bool String List.
From S2P Require Import Prelude JsValue.
Import ListNotations.
Open Scope Z_scope.
Open Scope js_scope.

(** [Math.random()] and [new Date()]. *)
Class RandomSource (S : Type) := {
  random_draw : S -> Z * S;
  date_now : S -> Z;
  random_draw_range : forall s, 0 <= fst (random_draw s) < 2 ^ 53;
  date_now_range : forall s, 0 <= date_now s <= 8640000000000000
}.

(** [STRING_MIN_LEN] and [STRING_MAX_LEN] of utils/const. *)
Class StringBounds := {
  STRING_MIN_LEN : Z;
  STRING_MAX_LEN : Z;
  string_bounds_ok : 0 <= STRING_MIN_LEN <= STRING_MAX_LEN
}.

(** [dayjs(date).format(format)]; [None] is an invalid date. *)
Class DateFormatter := {
  dayjs_format : option Z -> jsval -> jsstr
}.

Module Basic.

(** [DATE_DEFAULT_FOMAT] and [TIME_DEFAULT_FOMAT] of utils/const, as
    documented at basic.ts lines 99 and 110. *)
Definition DATE_DEFAULT_FOMAT : jsstr := lit "YYYY-MM-DD".
Definition TIME_DEFAULT_FOMAT : jsstr := lit "HH:mm:ss".

Definition MIN_SAFE_INTEGER : Z := - (2 ^ 53 - 1).
Definition MAX_SAFE_INTEGER : Z := 2 ^ 53 - 1.

(** [Math.random()] is [k / RANDOM_SCALE]. *)
Definition RANDOM_SCALE : Z := 2 ^ 53.

(** [Math.round(num / den)] for [den > 0]: [floor (num / den + 1/2)]. *)
Definition math_round (num den : Z) : Z := (2 * num + den) / (2 * den).

(** [Math.round(Math.random() * (maxVal - minVal) + minVal)] for the
    draw [k]. *)
Definition round_draw (k minVal maxVal : Z) : Z :=
  math_round (k * (maxVal - minVal) + minVal * RANDOM_SCALE) RANDOM_SCALE.

Definition allChar : jsstr :=
  lit "ABCDEFGHIJKLMNOPQRSTUVWXYZabcdefghijklmnopqrstuvwxyz0123456789".

(** [!_.isInteger(max) || !max || max > STRING_MAX_LEN] *)
Definition sanitize_max `{StringBounds} (m : option Z) : Z :=
  match m with
  | Some z => if (z =? 0) || (STRING_MAX_LEN <? z) then STRING_MAX_LEN else z
  | None => STRING_MAX_LEN
  end.

(** [!_.isInteger(min) || !min || min < STRING_MIN_LEN] *)
Definition sanitize_min `{StringBounds} (m : option Z) : Z :=
  match m with
  | Some z => if (z =? 0) || (z <? STRING_MIN_LEN) then STRING_MIN_LEN else z
  | None => STRING_MIN_LEN
  end.

(** [_.isInteger(len) && len >= STRING_MIN_LEN && len <= STRING_MAX_LEN] *)
Definition len_ok `{StringBounds} (l : option Z) : bool :=
  match l with
  | Some z => (STRING_MIN_LEN <=? z) && (z <=? STRING_MAX_LEN)
  | None => false
  end.

(** [{k = d} = opt; k = parseInt('' + k, 10)] *)
Definition parsed_bound (v : jsval) (d : Z) : option Z :=
  parse_int10 (to_js_string (default_undef v (JNum d))).

(** ** The option types of basic.ts

    The TypeScript interfaces of the options, read as predicates on
    values: an optional property of type [number] is [undefined] or a
    number ([NaN] included), one of type [string] is [undefined] or a
    string. *)

Definition opt_number (v : jsval) : bool :=
  match v with JUndefined | JNum _ | JNaN => true | _ => false end.

Definition opt_string (v : jsval) : bool :=
  match v with JUndefined | JStr _ => true | _ => false end.

(** [opt?: integerOption] with [interface integerOption { min?: number;
    max?: number }] (lines 5-8 and 15). *)
Definition integerOption (o : jsval) : bool :=
  match o with
  | JUndefined => true
  | JObj _ => opt_number (prop o (lit "min")) && opt_number (prop o (lit "max"))
  | _ => false
  end.

(** [opt: formatOpt] with [interface formatOpt { format?: string }]
    (lines 94-96, 102 and 113). *)
Definition formatOpt (o : jsval) : bool :=
  match o with JObj _ => opt_string (prop o (lit "format")) | _ => false end.

(** The object literal [{min, max}] passed to [integer]. *)
Definition int_opts (a b : Z) : jsval := JObj [(lit "min", JNum a); (lit "max", JNum b)].

(** The number of iterations of [for (let i = 0; i < n; i++)]. *)
Definition for_count (n : jsval) : nat :=
  match n with JNum z => Z.to_nat z | _ => O end.

(** [TimeClip] of [new Date(t)]: an invalid date beyond 8.64e15 ms. *)
Definition time_clip (t : Z) : option Z :=
  if Z.abs t <=? 8640000000000000 then Some t else None.

Section Generators.
Context {St : Type} `{RandomSource St} `{StringBounds} `{DateFormatter}.

Definition math_random : js St Z :=
  fun s => let '(k, s') := random_draw s in (Normal k, s').

Definition read_clock : js St Z := fun s => (Normal (date_now s), s).

(** [typeof v !== 'undefined' ? parseInt(v.toString(), 10) : d] *)
Definition bound_or (v : jsval) (d : Z) : js St (option Z) :=
  match v with
  | JUndefined => ret (Some d)
  | _ => let* t := call_toString v in ret (parse_int10 t)
  end.

(** basic.ts lines 15-20. *)
Definition integer (opt : jsval) : js St jsval :=
  let o := or_empty opt in
  let* min := get_v o (lit "min") in
  let* max := get_v o (lit "max") in
  let* minVal := bound_or min MIN_SAFE_INTEGER in
  let* maxVal := bound_or max MAX_SAFE_INTEGER in
  let* k := math_random in
  ret (match minVal, maxVal with
       | Some a, Some b => JNum (round_draw k a b)
       | _, _ => JNaN
       end).

(** basic.ts lines 25-30. *)
Definition char : js St jsstr :=
  let charsLen := Z.of_nat (List.length allChar) - 1 in
  let* i := integer (int_opts 0 charsLen) in
  ret (char_at allChar i).

(** basic.ts lines 57-74. *)
Definition _getLength (opt : jsval) : js St jsval :=
  let* min0 := get_v opt (lit "min") in
  let* max0 := get_v opt (lit "max") in
  let* len0 := get_v opt (lit "len") in
  let* min_s := concat_string (default_undef min0 (JNum STRING_MIN_LEN)) in
  let* max_s := concat_string (default_undef max0 (JNum STRING_MAX_LEN)) in
  let* len_s := concat_string len0 in
  let min1 := parse_int10 min_s in
  let max1 := parse_int10 max_s in
  let len1 := parse_int10 len_s in
  (* [typeof len !== 'undefined'] always holds once [len] is a number *)
  match len1 with
  | Some l => if len_ok len1 then ret (JNum l)
              else integer (int_opts (sanitize_min min1) (sanitize_max max1))
  | None => integer (int_opts (sanitize_min min1) (sanitize_max max1))
  end.

(** The loop of basic.ts lines 45-48: [res += char()], [n] times. *)
Fixpoint string_loop (n : nat) (res : jsstr) : js St jsstr :=
  match n with
  | O => ret res
  | S n' => let* c := char in string_loop n' (res ++ c)
  end.

(** basic.ts lines 43-50. *)
Definition string (opt : jsval) : js St jsstr :=
  let* strLen := _getLength (or_empty opt) in
  string_loop (for_count strLen) [].

(** basic.ts lines 80-82: [Math.random() >= 0.5]. *)
Definition boolean : js St bool :=
  let* k := math_random in ret (2 ^ 52 <=? k).

(** basic.ts lines 88-92. *)
Definition randomDate : js St (option Z) :=
  let min := 0 in
  let* max := read_clock in
  let* k := math_random in
  ret (time_clip ((k * (max - min)) / RANDOM_SCALE)).

(** basic.ts lines 102-106. *)
Definition date (opt : jsval) : js St jsstr :=
  let* f := get_v opt (lit "format") in
  let format := default_undef f (JStr DATE_DEFAULT_FOMAT) in
  let* curDate := randomDate in
  ret (dayjs_format curDate format).

(** basic.ts lines 113-117. *)
Definition time (opt : jsval) : js St jsstr :=
  let* f := get_v opt (lit "format") in
  let format := default_undef f (JStr TIME_DEFAULT_FOMAT) in
  let* curDate := randomDate in
  ret (dayjs_format curDate format).
End Generators.

End Basic.

(** ** Concrete instances, for evaluating the model on examples

    A list of draws (reduced modulo [2^53]; [0] once the list is
    exhausted) with a fixed clock; string bounds [1 .. 50]; a formatter
    that only records its format argument. *)
Module Examples.
Record ListState := { draws : list Z; clock : Z }.

Definition list_draw (s : ListState) : Z * ListState :=
  match draws s with
  | [] => (0, s)
  | k :: ks => (k mod 2 ^ 53, {| draws := ks; clock := clock s |})
  end.

Definition list_clock (s : ListState) : Z := Z.max 0 (Z.min (clock s) 8640000000000000).

Lemma list_draw_range s : 0 <= fst (list_draw s) < 2 ^ 53.
Proof.
  unfold list_draw. destruct (draws s); simpl; [lia|]. apply Z.mod_pos_bound. lia.
Qed.

Lemma list_clock_range s : 0 <= list_clock s <= 8640000000000000.
Proof. unfold list_clock. lia. Qed.

#[export] Instance ListSource : RandomSource ListState :=
  {| random_draw := list_draw; date_now := list_clock;
     random_draw_range := list_draw_range; date_now_range := list_clock_range |}.

Lemma example_bounds_ok : 0 <= 1 <= 50.
Proof. lia. Qed.

#[export] Instance ExampleBounds : StringBounds :=
  {| STRING_MIN_LEN := 1; STRING_MAX_LEN := 50; string_bounds_ok := example_bounds_ok |}.

#[export] Instance EchoFormatter : DateFormatter :=
  {| dayjs_format := fun _ f => to_js_string f |}.

Definition st (ks : list Z) : ListState := {| draws := ks; clock := 1700000000000 |}.
End Examples.

(** ** Arithmetic of the draw *)

Module DrawFacts.
Import Basic.

Lemma round_draw_shift k a b :
  round_draw k a b = (2 * k * (b - a) + 2 ^ 53) / 2 ^ 54 + a.
Proof.
  unfold round_draw, math_round, RANDOM_SCALE.
  rewrite <- Z.div_add by lia. f_equal; lia.
Qed.

(** [Math.round(Math.random() * (max - min) + min)] lies between [min]
    and [max], whichever is larger. *)
Lemma round_draw_between k a b :
  0 <= k < 2 ^ 53 -> Z.min a b <= round_draw k a b <= Z.max a b.
Proof.
  intros Hk. rewrite round_draw_shift.
  destruct (Z.le_gt_cases a b) as [Hab|Hab].
  - assert (0 <= (2 * k * (b - a) + 2 ^ 53) / 2 ^ 54 <= b - a).
    { split; [apply Z.div_pos; nia|].
      apply Z.lt_succ_r, Z.div_lt_upper_bound; nia. }
    lia.
  - assert (b - a <= (2 * k * (b - a) + 2 ^ 53) / 2 ^ 54 <= 0).
    { split; [apply Z.div_le_lower_bound; nia|].
      apply Z.lt_succ_r, Z.div_lt_upper_bound; nia. }
    lia.
Qed.

Lemma round_draw_range k a b :
  0 <= k < 2 ^ 53 -> a <= b -> a <= round_draw k a b <= b.
Proof. intros Hk Hab. pose proof (round_draw_between k a b Hk). lia. Qed.

(** The lowest draw gives [min]. *)
Lemma round_draw_zero a b : round_draw 0 a b = a.
Proof. rewrite round_draw_shift. rewrite Z.mul_0_r, Z.mul_0_l. reflexivity. Qed.

(** The highest draw gives [max], when the range is below [2^52]. *)
Lemma round_draw_top a b : - 2 ^ 52 < b - a <= 2 ^ 52 -> round_draw (2 ^ 53 - 1) a b = b.
Proof.
  intros Hd. rewrite round_draw_shift.
  replace (2 * (2 ^ 53 - 1) * (b - a) + 2 ^ 53) with ((b - a) * 2 ^ 54 + (2 ^ 53 - 2 * (b - a)))
    by ring.
  rewrite Z.div_add_l by lia. rewrite (Z.div_small (2 ^ 53 - 2 * (b - a))) by lia. lia.
Qed.

(** The draws that give [min + j]: [Math.round] sends to [min + j] the
    draws [k] with [(2j - 1) 2^52 <= k (max - min) < (2j + 1) 2^52], an
    interval half as wide for [j = 0] and [j = max - min] as for the
    values between. *)
Lemma round_draw_eq k a b j :
  0 < b - a ->
  round_draw k a b = a + j <-> (2 * j - 1) * 2 ^ 52 <= k * (b - a) < (2 * j + 1) * 2 ^ 52.
Proof.
  intros Hd. rewrite round_draw_shift.
  assert (E : forall x, x + a = a + j <-> x = j) by (intros; lia).
  rewrite E, Z_div_eq_iff by lia.
  replace (2 * k * (b - a)) with (2 * (k * (b - a))) by ring.
  set (x := k * (b - a)). change (2 ^ 54) with (4 * 2 ^ 52). change (2 ^ 53) with (2 * 2 ^ 52).
  set (p := 2 ^ 52). lia.
Qed.

End DrawFacts.

(** ** The generators *)

Module GeneratorFacts.
Import Basic DrawFacts.

Section WithSource.
Context {St : Type} `{RandomSource St}.

Lemma math_random_spec s : math_random s = (Normal (fst (random_draw s)), snd (random_draw s)).
Proof. unfold math_random. now destruct (random_draw s). Qed.

Lemma bound_or_num a d : @bound_or St (JNum a) d = ret (Some a).
Proof.
  unfold bound_or, call_toString. cbn [has_own_toString]. rewrite js_bind_ret.
  now rewrite parse_int10_to_js_string.
Qed.

Lemma get_v_int_opts_min a b : @get_v St (int_opts a b) (lit "min") = ret (JNum a).
Proof. reflexivity. Qed.

Lemma get_v_int_opts_max a b : @get_v St (int_opts a b) (lit "max") = ret (JNum b).
Proof. reflexivity. Qed.

(** [integer({min: a, max: b})] reads back [a] and [b] and draws once. *)
Lemma integer_int_opts a b s :
  integer (int_opts a b) s =
  (Normal (JNum (round_draw (fst (random_draw s)) a b)), snd (random_draw s)).
Proof.
  cbv beta zeta delta [integer].
  change (or_empty (int_opts a b)) with (int_opts a b).
  rewrite get_v_int_opts_min, js_bind_ret, get_v_int_opts_max, js_bind_ret,
    !bound_or_num, !js_bind_ret.
  unfold js_bind. now rewrite math_random_spec.
Qed.

(** [char()] reads the character at the index [integer] draws. *)
Lemma char_value s :
  char s = (Normal (char_at allChar (JNum (round_draw (fst (random_draw s)) 0 61))),
            snd (random_draw s)).
Proof.
  unfold char. change (Z.of_nat (List.length allChar) - 1) with 61.
  unfold js_bind. now rewrite integer_int_opts.
Qed.

(** The 62 characters of [allChar] are distinct. *)
Lemma allChar_nodup : NoDup allChar.
Proof. replace allChar with (nodup Z.eq_dec allChar) by (vm_compute; reflexivity). apply NoDup_nodup. Qed.

(** At an index within [allChar], [charAt] returns the character there,
    and two indices give the same character only if they are equal. *)
Lemma char_at_allChar v j c :
  0 <= v <= 61 -> 0 <= j -> nth_error allChar (Z.to_nat j) = Some c ->
  char_at allChar (JNum v) = [c] <-> v = j.
Proof.
  intros Hv Hj Hc. pose proof (proj1 (NoDup_nth_error allChar) allChar_nodup) as Hinj.
  unfold char_at. change (Z.of_nat (List.length allChar)) with 62.
  replace ((0 <=? v) && (v <? 62)) with true
    by (symmetry; apply andb_true_intro; split; [apply Z.leb_le|apply Z.ltb_lt]; lia).
  destruct (nth_error allChar (Z.to_nat v)) as [c'|] eqn:E.
  - split; [|intros ->; congruence].
    intros [= ->]. rewrite <- Hc in E. apply Hinj in E; [lia|]. cbn. lia.
  - exfalso. apply nth_error_None in E. cbn in E. lia.
Qed.

(** [char()] draws one index and returns one character of [allChar]. *)
Lemma char_spec s :
  exists c, char s = (Normal [c], snd (random_draw s)) /\ In c allChar.
Proof.
  rewrite char_value.
  pose proof (round_draw_range (fst (random_draw s)) 0 61 (random_draw_range s) ltac:(lia)) as Hr.
  set (v := round_draw _ 0 61) in *.
  destruct (nth_error allChar (Z.to_nat v)) as [c|] eqn:E.
  - exists c. rewrite (proj2 (char_at_allChar v v c Hr ltac:(lia) E) eq_refl).
    split; [reflexivity|]. eapply nth_error_In; eassumption.
  - exfalso. apply nth_error_None in E. cbn in E. lia.
Qed.

(** The state of the source after [n] draws. *)
Fixpoint skip_draws (n : nat) (s : St) : St :=
  match n with O => s | S n' => skip_draws n' (snd (random_draw s)) end.

(** The loop [for (...) res += char()] appends [n] characters of
    [allChar], one draw each. *)
Lemma string_loop_spec n res s :
  exists cs, string_loop n res s = (Normal (res ++ cs), skip_draws n s)
    /\ length cs = n /\ Forall (fun c => In c allChar) cs.
Proof.
  revert res s. induction n as [|n IH]; intros res s.
  - exists []. rewrite app_nil_r. repeat split; constructor.
  - cbn [string_loop skip_draws]. unfold js_bind. destruct (char_spec s) as (c & -> & Hc).
    destruct (IH (res ++ [c]) (snd (random_draw s))) as (cs & -> & Hl & Hall).
    exists (c :: cs). rewrite <- app_assoc. repeat split; [simpl; lia|constructor; auto].
Qed.

(** C12: [integer({min, max})] with [min <= max] returns an integer between
    them, consuming one draw. *)
Theorem integer_range a b s :
  a <= b ->
  exists v, integer (int_opts a b) s = (Normal (JNum v), snd (random_draw s)) /\ a <= v <= b.
Proof.
  intros Hab. rewrite integer_int_opts. eexists. split; [reflexivity|].
  apply round_draw_range; [apply random_draw_range|exact Hab].
Qed.

(** C28: [char()] returns the character at index [j] of [allChar] exactly
    for the draws [k] with [(2j - 1) 2^52 <= 61 k < (2j + 1) 2^52]: the
    draws of ['A'] and ['9'] form intervals half as wide as those of the
    other 60 characters, so [char()] is not uniform over its alphabet. *)
Theorem char_draw_interval s j c :
  0 <= j -> nth_error allChar (Z.to_nat j) = Some c ->
  js_eval char s = Normal [c] <->
  (2 * j - 1) * 2 ^ 52 <= fst (random_draw s) * 61 < (2 * j + 1) * 2 ^ 52.
Proof.
  intros Hj Hc. unfold js_eval. rewrite char_value. cbn [fst].
  pose proof (round_draw_range (fst (random_draw s)) 0 61 (random_draw_range s) ltac:(lia)) as Hr.
  rewrite <- (round_draw_eq (fst (random_draw s)) 0 61 j) by lia.
  rewrite <- (char_at_allChar _ j c Hr Hj Hc).
  split; [now intros [= ->]|now intros ->].
Qed.

(** The bounds [v] on which [v.toString()] throws: [null], and an object
    whose own [toString] is not a function. *)
Definition bound_throws (v : jsval) : bool :=
  match v with JNull => true | _ => has_own_toString v end.

Lemma bound_or_throws v d : bound_throws v = true -> exists e, @bound_or St v d = js_throw e.
Proof.
  intros Hv. destruct v; try discriminate; try (eexists; reflexivity).
  unfold bound_or, call_toString. cbn [bound_throws] in Hv. rewrite Hv. eexists; reflexivity.
Qed.

Lemma bound_or_ok v d : bound_throws v = false -> exists r, @bound_or St v d = ret r.
Proof.
  intros Hv. destruct v; try discriminate; try (eexists; reflexivity).
  unfold bound_or, call_toString. cbn [bound_throws] in Hv. rewrite Hv. eexists; reflexivity.
Qed.

(** The two outcomes of [integer]: a [TypeError] before any draw when
    [.toString()] fails on a bound, or a number ([NaN] included) after
    one draw. *)
Lemma integer_outcome opt s :
  ((bound_throws (prop (or_empty opt) (lit "min")) = true \/
    bound_throws (prop (or_empty opt) (lit "max")) = true) /\
   exists e, integer opt s = (Throw e, s)) \/
  (bound_throws (prop (or_empty opt) (lit "min")) = false /\
   bound_throws (prop (or_empty opt) (lit "max")) = false /\
   exists v, integer opt s = (Normal v, snd (random_draw s)) /\ typeof v = TNumber).
Proof.
  destruct (or_empty_coercible opt) as [Hu Hn].
  destruct (bound_throws (prop (or_empty opt) (lit "min"))) eqn:Hmin;
    [left; split; [now left|]|];
  [|destruct (bound_throws (prop (or_empty opt) (lit "max"))) eqn:Hmax;
    [left; split; [now right|]|right; split; [reflexivity|]; split; [reflexivity|]]];
  cbv beta zeta delta [integer]; rewrite !get_v_coercible by assumption; rewrite !js_bind_ret.
  - destruct (bound_or_throws _ MIN_SAFE_INTEGER Hmin) as [e ->]. eexists; reflexivity.
  - destruct (bound_or_ok _ MIN_SAFE_INTEGER Hmin) as [r1 ->]. rewrite js_bind_ret.
    destruct (bound_or_throws _ MAX_SAFE_INTEGER Hmax) as [e ->]. eexists; reflexivity.
  - destruct (bound_or_ok _ MIN_SAFE_INTEGER Hmin) as [r1 ->]. rewrite js_bind_ret.
    destruct (bound_or_ok _ MAX_SAFE_INTEGER Hmax) as [r2 ->]. rewrite js_bind_ret.
    unfold js_bind. rewrite math_random_spec. eexists. split; [reflexivity|]. now destruct r1, r2.
Qed.


(** C30: A bound that [parseInt] cannot read makes [integer] return [NaN]
    after its draw, instead of falling back to a default: [{min: "abc"}]
    gives [NaN]. *)
Theorem integer_unparsable_nan t s :
  parse_int10 t = None ->
  integer (JObj [(lit "min", JStr t)]) s = (Normal JNaN, snd (random_draw s)).
Proof.
  intros Ht. cbv beta zeta delta [integer].
  change (or_empty (JObj [(lit "min", JStr t)])) with (JObj [(lit "min", JStr t)]).
  rewrite !get_v_coercible by discriminate. rewrite !js_bind_ret.
  change (prop (JObj [(lit "min", JStr t)]) (lit "min")) with (JStr t).
  change (prop (JObj [(lit "min", JStr t)]) (lit "max")) with JUndefined.
  cbn [bound_or call_toString has_own_toString to_js_string]. rewrite !js_bind_ret, Ht.
  unfold js_bind. now rewrite math_random_spec.
Qed.

(** C37: Called with options of its declared type [integerOption],
    [integer] never throws and returns a number, after one draw: the
    [TypeError] of a [null] bound is excluded by the type. *)
Theorem integer_typed_options o s :
  integerOption o = true ->
  exists v, integer o s = (Normal v, snd (random_draw s)) /\ typeof v = TNumber.
Proof.
  intros Ho.
  assert (Hb : forall k, opt_number (prop (or_empty o) k) = true ->
                         bound_throws (prop (or_empty o) k) = false)
    by (intros k; destruct (prop (or_empty o) k); intros Hk; (discriminate || reflexivity)).
  assert (Hmin : bound_throws (prop (or_empty o) (lit "min")) = false /\
                 bound_throws (prop (or_empty o) (lit "max")) = false).
  { destruct o; try discriminate; [split; reflexivity|].
    apply andb_prop in Ho as [H1 H2]. split; apply Hb; assumption. }
  destruct Hmin as [Hm1 Hm2].
  destruct (integer_outcome o s) as [[[Hx|Hx] _] | (_ & _ & Hv)]; [congruence|congruence|exact Hv].
Qed.

(** [boolean()] is [Math.random() >= 0.5]. *)
Lemma boolean_spec s : boolean s = (Normal (2 ^ 52 <=? fst (random_draw s)), snd (random_draw s)).
Proof. unfold boolean, js_bind. now rewrite math_random_spec. Qed.

(** C23: Fairness of [boolean()]: shifting the draw by half the range
    ([k] to [k + 2^52 mod 2^53]) flips the result, so exactly half of
    the [2^53] draws give [true]. *)
Theorem boolean_fair s1 s2 :
  fst (random_draw s2) = (fst (random_draw s1) + 2 ^ 52) mod 2 ^ 53 ->
  js_eval boolean s2 = Normal (negb (2 ^ 52 <=? fst (random_draw s1))) /\
  js_eval boolean s1 = Normal (2 ^ 52 <=? fst (random_draw s1)).
Proof.
  intros Hk. unfold js_eval. rewrite !boolean_spec. split; [|reflexivity]. cbn [fst].
  rewrite Hk. pose proof (random_draw_range s1) as Hr.
  set (k := fst (random_draw s1)) in *. f_equal.
  destruct (Z.leb_spec (2 ^ 52) k).
  - replace ((k + 2 ^ 52) mod 2 ^ 53) with (k - 2 ^ 52)
      by (apply Z.mod_unique with 1; lia).
    apply Z.leb_gt. lia.
  - rewrite Z.mod_small by lia. apply Z.leb_le. lia.
Qed.
Lemma prop_or_empty_primitive v k :
  (forall ps, v <> JObj ps) -> k <> lit "length" -> prop (or_empty v) k = JUndefined.
Proof.
  intros Hv Hk. unfold or_empty. destruct v; try (exfalso; eapply Hv; reflexivity);
    destruct (truthy _); try reflexivity.
  cbn [prop]. destruct (str_eqb k (lit "length")) eqn:E; [|reflexivity].
  exfalso. apply Hk. apply str_eqb_eq. exact E.
Qed.

(** Called with a primitive (a number, a string, [undefined], ...) as
    its options, [integer] reads no bound and draws over the safe
    integers. *)
Theorem integer_primitive_defaults v s :
  (forall ps, v <> JObj ps) ->
  exists n, integer v s = (Normal (JNum n), snd (random_draw s)) /\
    MIN_SAFE_INTEGER <= n <= MAX_SAFE_INTEGER /\
    n = round_draw (fst (random_draw s)) MIN_SAFE_INTEGER MAX_SAFE_INTEGER.
Proof.
  intros Hv. destruct (or_empty_coercible v) as [Hu Hn].
  cbv beta zeta delta [integer]. rewrite !get_v_coercible by assumption.
  rewrite !prop_or_empty_primitive by (assumption || discriminate).
  rewrite !js_bind_ret. cbn [bound_or]. rewrite !js_bind_ret.
  unfold js_bind. rewrite math_random_spec. eexists. split; [reflexivity|]. split; [|reflexivity].
  apply round_draw_range; [apply random_draw_range|]. unfold MIN_SAFE_INTEGER, MAX_SAFE_INTEGER. lia.
Qed.

(** [randomDate()] reads the clock, then draws once. *)
Lemma randomDate_spec s :
  randomDate s = (Normal (Some ((fst (random_draw s) * date_now s) / 2 ^ 53)), snd (random_draw s)).
Proof.
  unfold randomDate, read_clock, js_bind. rewrite math_random_spec. unfold js_ret, time_clip.
  pose proof (random_draw_range s). pose proof (date_now_range s).
  rewrite Z.sub_0_r. unfold RANDOM_SCALE.
  assert (0 <= fst (random_draw s) * date_now s / 2 ^ 53 <= date_now s).
  { split; [apply Z.div_pos; nia|]. apply Z.div_le_upper_bound; nia. }
  replace (Z.abs _ <=? 8640000000000000) with true by (symmetry; apply Z.leb_le; lia).
  reflexivity.
Qed.

(** C24: [randomDate()] lies between the epoch and the current time. *)
Theorem randomDate_range s :
  exists t, js_eval randomDate s = Normal (Some t) /\ 0 <= t <= date_now s.
Proof.
  unfold js_eval. rewrite randomDate_spec. eexists. split; [reflexivity|].
  pose proof (random_draw_range s). pose proof (date_now_range s).
  split; [apply Z.div_pos; nia|]. apply Z.div_le_upper_bound; nia.
Qed.

End WithSource.

Section WithBounds.
Context {St : Type} `{RandomSource St} `{StringBounds}.

Lemma sanitize_min_ge m : STRING_MIN_LEN <= sanitize_min m.
Proof.
  unfold sanitize_min. destruct m as [z|]; [|lia].
  destruct (Z.eqb_spec z 0), (Z.ltb_spec z STRING_MIN_LEN); simpl; lia.
Qed.

Lemma sanitize_max_le m : sanitize_max m <= STRING_MAX_LEN.
Proof.
  unfold sanitize_max. destruct m as [z|]; [|lia].
  destruct (Z.eqb_spec z 0), (Z.ltb_spec STRING_MAX_LEN z); simpl; lia.
Qed.

Lemma sanitize_min_le m :
  (forall z, m = Some z -> z <> 0 -> z <= STRING_MAX_LEN) -> sanitize_min m <= STRING_MAX_LEN.
Proof.
  pose proof string_bounds_ok. unfold sanitize_min. intros Hm. destruct m as [z|]; [|lia].
  destruct (Z.eqb_spec z 0), (Z.ltb_spec z STRING_MIN_LEN); simpl; try lia.
  now apply Hm.
Qed.

Lemma sanitize_max_ge m :
  (forall z, m = Some z -> z <> 0 -> STRING_MIN_LEN <= z) -> STRING_MIN_LEN <= sanitize_max m.
Proof.
  pose proof string_bounds_ok. unfold sanitize_max. intros Hm. destruct m as [z|]; [|lia].
  destruct (Z.eqb_spec z 0), (Z.ltb_spec STRING_MAX_LEN z); simpl; try lia.
  now apply Hm.
Qed.

(** The options whose [min], [max] and [len] convert with ['' + v]
    (basic.ts lines 59-61): none is an object with an own [toString]. *)
Definition string_opts_ok (o : jsval) : bool :=
  negb (has_own_toString (prop o (lit "min"))) && negb (has_own_toString (prop o (lit "max")))
  && negb (has_own_toString (prop o (lit "len"))).

(** A failed ['' + v] throws out of the rest of the computation,
    leaving the state as it was. *)
Lemma bind_concat_throws {A} v (k : jsstr -> js St A) s :
  has_own_toString v = true -> exists e, js_bind (concat_string v) k s = (Throw e, s).
Proof. intros Hv. destruct (concat_string_throws (S:=St) v Hv) as [e ->]. eexists; reflexivity. Qed.

(** [_getLength] throws, before any draw, when one of the conversions
    of lines 59-61 fails. *)
Lemma getLength_throws opt s :
  opt <> JUndefined -> opt <> JNull -> string_opts_ok opt = false ->
  exists e, _getLength opt s = (Throw e, s).
Proof.
  intros Hu Hn Hok. unfold _getLength, string_opts_ok in *.
  rewrite !get_v_coercible by assumption. rewrite !js_bind_ret.
  destruct (has_own_toString (prop opt (lit "min"))) eqn:Hmin;
    [apply bind_concat_throws; now rewrite has_own_toString_default|].
  rewrite concat_string_ok, js_bind_ret by now rewrite has_own_toString_default.
  destruct (has_own_toString (prop opt (lit "max"))) eqn:Hmax;
    [apply bind_concat_throws; now rewrite has_own_toString_default|].
  rewrite concat_string_ok, js_bind_ret by now rewrite has_own_toString_default.
  destruct (has_own_toString (prop opt (lit "len"))) eqn:Hlen;
    [now apply bind_concat_throws|cbn in Hok; discriminate].
Qed.

(** [_getLength] returns [len] when it is an integer within the bounds,
    and otherwise draws between the sanitized [min] and [max]. *)
Lemma getLength_cases opt s :
  opt <> JUndefined -> opt <> JNull -> string_opts_ok opt = true ->
  let min1 := parsed_bound (prop opt (lit "min")) STRING_MIN_LEN in
  let max1 := parsed_bound (prop opt (lit "max")) STRING_MAX_LEN in
  let len1 := parse_int10 (to_js_string (prop opt (lit "len"))) in
  exists v s1, _getLength opt s = (Normal (JNum v), s1) /\
    ((len_ok len1 = true /\ len1 = Some v /\ s1 = s) \/
     (len_ok len1 = false /\
      v = round_draw (fst (random_draw s)) (sanitize_min min1) (sanitize_max max1) /\
      s1 = snd (random_draw s))).
Proof.
  intros Hu Hn Hok. cbn zeta. unfold _getLength, string_opts_ok in *.
  apply andb_prop in Hok as [Hok Hlen]. apply andb_prop in Hok as [Hmin Hmax].
  apply negb_true_iff in Hmin, Hmax, Hlen.
  rewrite !get_v_coercible by assumption. rewrite !js_bind_ret.
  rewrite !concat_string_ok by (rewrite ?has_own_toString_default; assumption).
  rewrite !js_bind_ret. cbv beta zeta.
  destruct (parse_int10 (to_js_string (prop opt (lit "len")))) as [l|] eqn:El.
  - destruct (len_ok (Some l)) eqn:Hok.
    + exists l, s. split; [reflexivity|]. left; auto.
    + rewrite integer_int_opts. eexists _, _. split; [reflexivity|]. right; auto.
  - rewrite integer_int_opts. eexists _, _. split; [reflexivity|]. right; auto.
Qed.

(** [string(opt)] throws, before any draw, when a conversion of
    [_getLength] fails. *)
Lemma string_throws opt s :
  string_opts_ok (or_empty opt) = false -> exists e, string opt s = (Throw e, s).
Proof.
  intros Hok. destruct (or_empty_coercible opt) as [Hu Hn].
  destruct (getLength_throws (or_empty opt) s Hu Hn Hok) as [e He].
  exists e. unfold string, js_bind. now rewrite He.
Qed.

(** [string(opt)] computes a length, then runs the loop that many times. *)
Lemma string_run opt s :
  string_opts_ok (or_empty opt) = true ->
  exists v s1 str,
    _getLength (or_empty opt) s = (Normal (JNum v), s1) /\
    string opt s = (Normal str, skip_draws (length str) s1) /\
    length str = Z.to_nat v /\ Forall (fun c => In c allChar) str.
Proof.
  intros Hok. destruct (or_empty_coercible opt) as [Hu Hn].
  destruct (getLength_cases (or_empty opt) s Hu Hn Hok) as (v & s1 & Hg & _).
  destruct (string_loop_spec (Z.to_nat v) [] s1) as (cs & Hl & Hlen & Hall).
  exists v, s1, cs. unfold string, js_bind. rewrite Hg. cbn [for_count].
  rewrite Hl, Hlen. auto.
Qed.

Lemma string_length_value opt s :
  string_opts_ok (or_empty opt) = true ->
  exists v str, js_eval (string opt) s = Normal str /\ length str = Z.to_nat v /\
    ((len_ok (parse_int10 (to_js_string (prop (or_empty opt) (lit "len")))) = true /\
      parse_int10 (to_js_string (prop (or_empty opt) (lit "len"))) = Some v) \/
     (len_ok (parse_int10 (to_js_string (prop (or_empty opt) (lit "len")))) = false /\
      v = round_draw (fst (random_draw s))
            (sanitize_min (parsed_bound (prop (or_empty opt) (lit "min")) STRING_MIN_LEN))
            (sanitize_max (parsed_bound (prop (or_empty opt) (lit "max")) STRING_MAX_LEN)))).
Proof.
  intros Hok. destruct (string_run opt s Hok) as (v & s1 & str & Hg & Hs & Hlen & _).
  destruct (or_empty_coercible opt) as [Hu Hn].
  destruct (getLength_cases (or_empty opt) s Hu Hn Hok) as (v' & s1' & Hg' & Hcase).
  rewrite Hg in Hg'. injection Hg' as <- <-.
  exists v, str. unfold js_eval. rewrite Hs. split; [reflexivity|]. split; [exact Hlen|].
  destruct Hcase as [(? & ? & _) | (? & ? & _)]; auto.
Qed.

(** [_getLength] reads only [min], [max] and [len] of its options. *)
Lemma getLength_props o1 o2 s :
  o1 <> JUndefined -> o1 <> JNull -> o2 <> JUndefined -> o2 <> JNull ->
  prop o1 (lit "min") = prop o2 (lit "min") -> prop o1 (lit "max") = prop o2 (lit "max") ->
  prop o1 (lit "len") = prop o2 (lit "len") ->
  _getLength o1 s = _getLength o2 s.
Proof.
  intros ? ? ? ? Hmin Hmax Hlen. unfold _getLength.
  rewrite !(get_v_coercible o1), !(get_v_coercible o2) by assumption.
  now rewrite Hmin, Hmax, Hlen.
Qed.

(** Called with a primitive as its options, [string] behaves as
    [string()]: no option is read. *)
Lemma string_primitive v s : (forall ps, v <> JObj ps) -> string v s = string JUndefined s.
Proof.
  intros Hv. destruct (or_empty_coercible v) as [Hu Hn]. unfold string, js_bind.
  rewrite (getLength_props (or_empty v) (or_empty JUndefined) s Hu Hn);
    [reflexivity | discriminate | discriminate | ..];
    (rewrite prop_or_empty_primitive; [reflexivity | exact Hv | discriminate]).
Qed.

(** A primitive has none of the options of [_getLength], so all convert. *)
Lemma string_opts_ok_primitive v : (forall ps, v <> JObj ps) -> string_opts_ok (or_empty v) = true.
Proof. intros Hv. unfold string_opts_ok. now rewrite !prop_or_empty_primitive by (exact Hv || discriminate). Qed.

Lemma len_ok_range l : len_ok (Some l) = true -> STRING_MIN_LEN <= l <= STRING_MAX_LEN.
Proof. unfold len_ok. intros Hok. apply andb_prop in Hok as [H1 H2]. apply Z.leb_le in H1, H2. lia. Qed.

(** The length [_getLength] chooses lies within the bounds when the
    requested [min] and [max] do not cross them. *)
Lemma length_choice_in_bounds opt s v :
  (forall m, parsed_bound (prop (or_empty opt) (lit "min")) STRING_MIN_LEN = Some m ->
             m <> 0 -> m <= STRING_MAX_LEN) ->
  (forall m, parsed_bound (prop (or_empty opt) (lit "max")) STRING_MAX_LEN = Some m ->
             m <> 0 -> STRING_MIN_LEN <= m) ->
  ((len_ok (parse_int10 (to_js_string (prop (or_empty opt) (lit "len")))) = true /\
    parse_int10 (to_js_string (prop (or_empty opt) (lit "len"))) = Some v) \/
   (len_ok (parse_int10 (to_js_string (prop (or_empty opt) (lit "len")))) = false /\
    v = round_draw (fst (random_draw s))
          (sanitize_min (parsed_bound (prop (or_empty opt) (lit "min")) STRING_MIN_LEN))
          (sanitize_max (parsed_bound (prop (or_empty opt) (lit "max")) STRING_MAX_LEN)))) ->
  STRING_MIN_LEN <= v <= STRING_MAX_LEN.
Proof.
  intros Hmin Hmax Hcase. destruct Hcase as [(Hok & Hl) | (_ & ->)].
  - rewrite Hl in Hok. now apply len_ok_range.
  - set (mn := parsed_bound (prop (or_empty opt) (lit "min")) STRING_MIN_LEN) in *.
    set (mx := parsed_bound (prop (or_empty opt) (lit "max")) STRING_MAX_LEN) in *.
    pose proof (round_draw_between (fst (random_draw s)) (sanitize_min mn) (sanitize_max mx)
                  (random_draw_range s)).
    pose proof (sanitize_min_ge mn). pose proof (sanitize_max_le mx).
    pose proof (sanitize_min_le mn Hmin). pose proof (sanitize_max_ge mx Hmax). lia.
Qed.

(** C4: A string of [string(opt)] has a length within
    [STRING_MIN_LEN .. STRING_MAX_LEN] when the requested [min], if it
    is a nonzero integer, is at most [STRING_MAX_LEN] and the requested
    [max], if it is a nonzero integer, is at least [STRING_MIN_LEN],
    and all three convert with ['' + v]. *)
Theorem string_length_in_bounds opt s :
  string_opts_ok (or_empty opt) = true ->
  (forall m, parsed_bound (prop (or_empty opt) (lit "min")) STRING_MIN_LEN = Some m ->
             m <> 0 -> m <= STRING_MAX_LEN) ->
  (forall m, parsed_bound (prop (or_empty opt) (lit "max")) STRING_MAX_LEN = Some m ->
             m <> 0 -> STRING_MIN_LEN <= m) ->
  exists str, js_eval (string opt) s = Normal str /\
    STRING_MIN_LEN <= Z.of_nat (length str) <= STRING_MAX_LEN.
Proof.
  intros Hok Hmin Hmax. pose proof string_bounds_ok.
  destruct (string_length_value opt s Hok) as (v & str & Hs & Hlen & Hcase).
  pose proof (length_choice_in_bounds opt s v Hmin Hmax Hcase).
  exists str. split; [exact Hs|]. rewrite Hlen, Z2Nat.id; lia.
Qed.

(** A [len] that reads as an integer within the bounds fixes the length. *)
Lemma string_len_fixed opt s l :
  string_opts_ok (or_empty opt) = true ->
  parse_int10 (to_js_string (prop (or_empty opt) (lit "len"))) = Some l ->
  STRING_MIN_LEN <= l <= STRING_MAX_LEN ->
  exists str, js_eval (string opt) s = Normal str /\ Z.of_nat (length str) = l.
Proof.
  intros Hc Hl Hrange. pose proof string_bounds_ok.
  destruct (string_length_value opt s Hc) as (v & str & Hs & Hlen & Hcase).
  exists str. split; [exact Hs|]. rewrite Hlen.
  assert (Hok : len_ok (Some l) = true).
  { unfold len_ok. apply andb_true_intro. split; apply Z.leb_le; lia. }
  rewrite Hl in Hcase. destruct Hcase as [(_ & [= ->]) | (Hko & _)]; [lia|congruence].
Qed.

(** C11: An explicit [len] within the bounds fixes the length exactly,
    whatever [min] and [max] are, as long as the three options convert
    with ['' + v] (the conversions of lines 59-61 precede the test of
    [len]). *)
Theorem string_len_exact opt s l :
  string_opts_ok (or_empty opt) = true ->
  parse_int10 (to_js_string (prop (or_empty opt) (lit "len"))) = Some l ->
  STRING_MIN_LEN <= l <= STRING_MAX_LEN ->
  exists str, js_eval (string opt) s = Normal str /\ Z.of_nat (length str) = l.
Proof. intros Hc Hl Hrange. exact (string_len_fixed opt s l Hc Hl Hrange). Qed.

(** C29: A [len] given as text is read by [parseInt(s, 10)]: leading
    white space is skipped and whatever follows the leading digits is
    ignored, so [string({len: " 12px"})] has exactly 12 characters when
    12 lies within the bounds. *)
Theorem string_len_text_prefix s ws ds rest :
  forallb is_js_whitespace ws = true -> ds <> [] -> forallb is_digit ds = true ->
  stops_at is_digit rest = true -> STRING_MIN_LEN <= digits_value ds <= STRING_MAX_LEN ->
  exists str, js_eval (string (JObj [(lit "len", JStr (ws ++ ds ++ rest))])) s = Normal str /\
    Z.of_nat (length str) = digits_value ds.
Proof.
  intros Hws Hne Hds Hrest Hb. apply string_len_fixed; [reflexivity| |exact Hb].
  change (to_js_string (prop (or_empty (JObj [(lit "len", JStr (ws ++ ds ++ rest))])) (lit "len")))
    with (ws ++ ([] : jsstr) ++ ds ++ rest).
  rewrite (parse_int10_prefix ws [] ds rest Hws ltac:(now left) Hne Hds Hrest).
  cbn [str_eqb]. now rewrite Z.mul_1_l.
Qed.

Lemma parsed_bound_num a d : parsed_bound (JNum a) d = Some a.
Proof. apply parse_int10_to_js_string. Qed.

Lemma parsed_bound_undef d : parsed_bound JUndefined d = Some d.
Proof. apply parse_int10_to_js_string. Qed.

Lemma sanitize_min_id a : STRING_MIN_LEN <= a -> sanitize_min (Some a) = a.
Proof.
  pose proof string_bounds_ok. unfold sanitize_min. intros Ha.
  destruct (Z.eqb_spec a 0), (Z.ltb_spec a STRING_MIN_LEN); simpl; lia.
Qed.

Lemma sanitize_max_id b : b <> 0 -> b <= STRING_MAX_LEN -> sanitize_max (Some b) = b.
Proof.
  unfold sanitize_max. intros Hb Hle.
  destruct (Z.eqb_spec b 0), (Z.ltb_spec STRING_MAX_LEN b); simpl; lia.
Qed.

(** Without a [len], [string] draws its length between the sanitized
    [min] and [max]. *)
Lemma string_length_no_len opt s a b :
  string_opts_ok (or_empty opt) = true ->
  parse_int10 (to_js_string (prop (or_empty opt) (lit "len"))) = None ->
  parsed_bound (prop (or_empty opt) (lit "min")) STRING_MIN_LEN = Some a ->
  parsed_bound (prop (or_empty opt) (lit "max")) STRING_MAX_LEN = Some b ->
  exists str, js_eval (string opt) s = Normal str /\
    length str = Z.to_nat (round_draw (fst (random_draw s)) (sanitize_min (Some a))
                                       (sanitize_max (Some b))).
Proof.
  intros Hc Hl Ha Hb. destruct (string_length_value opt s Hc) as (v & str & Hs & Hlen & Hcase).
  rewrite Hl, Ha, Hb in Hcase. exists str. split; [exact Hs|]. rewrite Hlen.
  destruct Hcase as [([=] & _) | (_ & ->)]. reflexivity.
Qed.

(** C5: A [min] above [STRING_MAX_LEN] is kept by the sanitizer: on the
    lowest draw the string is [min] characters long, beyond the bound. *)
Theorem string_min_above_max s m :
  fst (random_draw s) = 0 -> STRING_MAX_LEN < m ->
  exists str, js_eval (string (JObj [(lit "min", JNum m)])) s = Normal str /\
    Z.of_nat (length str) = m.
Proof.
  intros Hk Hm. pose proof string_bounds_ok.
  destruct (string_length_no_len (JObj [(lit "min", JNum m)]) s m STRING_MAX_LEN eq_refl eq_refl
              (parsed_bound_num m _) (parsed_bound_undef _)) as (str & Hs & Hlen).
  exists str. split; [exact Hs|].
  rewrite Hlen, Hk, round_draw_zero, sanitize_min_id by lia. lia.
Qed.

(** C8: When its options convert with ['' + v], [string(opt)] returns
    normally: its characters come from [allChar], drawn one per
    character, after one draw for the length unless a valid [len] fixes
    it. *)
Theorem string_draws opt s :
  string_opts_ok (or_empty opt) = true ->
  exists str,
    string opt s =
      (Normal str,
       skip_draws ((if len_ok (parse_int10 (to_js_string (prop (or_empty opt) (lit "len"))))
                    then 0 else 1) + length str) s) /\
    Forall (fun c => In c allChar) str.
Proof.
  intros Hok. destruct (string_run opt s Hok) as (v & s1 & str & Hg & Hs & _ & Hall).
  destruct (or_empty_coercible opt) as [Hu Hn].
  destruct (getLength_cases (or_empty opt) s Hu Hn Hok) as (v' & s1' & Hg' & Hcase).
  rewrite Hg in Hg'. injection Hg' as <- <-.
  exists str. split; [|exact Hall]. rewrite Hs.
  destruct Hcase as [(-> & _ & ->) | (-> & _ & ->)]; reflexivity.
Qed.

(** C26: [string(opt)] throws a [TypeError] exactly when ['' + v] fails
    on its [min], [max] or [len]: an object whose own [toString] is not
    a function ([{min: {toString: 1}}]).  It throws before any draw,
    leaving the random source as it was. *)
Theorem string_throws_iff opt s :
  ((exists e s', string opt s = (Throw e, s')) <-> string_opts_ok (or_empty opt) = false) /\
  (forall e s', string opt s = (Throw e, s') -> s' = s).
Proof.
  apply throws_iff_of_cases. destruct (string_opts_ok (or_empty opt)) eqn:Hok.
  - left. split; [discriminate|].
    destruct (string_run opt s Hok) as (_ & s1 & str & _ & Hs & _). eauto.
  - right. split; [reflexivity|]. exact (string_throws opt s Hok).
Qed.

(** C6: A nonzero [max] below [STRING_MIN_LEN] is kept by the sanitizer
    of line 71: the string is never longer than [STRING_MIN_LEN], and on
    the highest draw it has [max] characters, none when [max] is
    negative. *)
Theorem string_max_below_min s m :
  m < STRING_MIN_LEN -> m <> 0 ->
  exists str, js_eval (string (JObj [(lit "max", JNum m)])) s = Normal str /\
    Z.of_nat (length str) <= STRING_MIN_LEN /\
    (fst (random_draw s) = 2 ^ 53 - 1 -> STRING_MIN_LEN - m < 2 ^ 52 ->
     length str = Z.to_nat m).
Proof.
  intros Hm Hnz. pose proof string_bounds_ok.
  destruct (string_length_no_len (JObj [(lit "max", JNum m)]) s STRING_MIN_LEN m eq_refl eq_refl
              (parsed_bound_undef _) (parsed_bound_num m _)) as (str & Hs & Hlen).
  exists str. split; [exact Hs|]. rewrite Hlen, sanitize_min_id, sanitize_max_id by lia.
  pose proof (round_draw_between (fst (random_draw s)) STRING_MIN_LEN m (random_draw_range s)).
  split; [lia|]. intros Hk Hd. rewrite Hk, round_draw_top by lia. reflexivity.
Qed.

(** C39: Explicit bounds within the string bounds are honoured: with
    [STRING_MIN_LEN <= min <= max <= STRING_MAX_LEN] the length lies
    between [min] and [max].  [max] must be nonzero: a [max] of [0] is
    falsy and replaced by [STRING_MAX_LEN]. *)
Theorem string_min_max_honored s a b :
  STRING_MIN_LEN <= a <= b -> b <= STRING_MAX_LEN -> 0 < b ->
  exists str, js_eval (string (JObj [(lit "min", JNum a); (lit "max", JNum b)])) s = Normal str /\
    a <= Z.of_nat (length str) <= b.
Proof.
  intros Hab Hb Hpos. pose proof string_bounds_ok.
  destruct (string_length_no_len (JObj [(lit "min", JNum a); (lit "max", JNum b)]) s a b eq_refl eq_refl
              (parsed_bound_num a _) (parsed_bound_num b _)) as (str & Hs & Hlen).
  exists str. split; [exact Hs|]. rewrite Hlen, sanitize_min_id, sanitize_max_id by lia.
  pose proof (round_draw_range (fst (random_draw s)) a b (random_draw_range s) ltac:(lia)). lia.
Qed.

End WithBounds.

Section WithFormatter.
Context {St : Type} `{RandomSource St} `{DateFormatter}.

(** [date(opt)] formats a random date with [opt.format], or with
    [DATE_DEFAULT_FOMAT] when [opt] has no [format]. *)
Lemma date_spec opt s :
  opt <> JUndefined -> opt <> JNull ->
  date opt s =
  (Normal (dayjs_format (Some ((fst (random_draw s) * date_now s) / 2 ^ 53))
             (default_undef (prop opt (lit "format")) (JStr DATE_DEFAULT_FOMAT))),
   snd (random_draw s)).
Proof.
  intros Hu Hn. unfold date. rewrite get_v_coercible by assumption. rewrite js_bind_ret.
  cbv beta zeta. unfold js_bind. now rewrite randomDate_spec.
Qed.

Lemma time_spec opt s :
  opt <> JUndefined -> opt <> JNull ->
  time opt s =
  (Normal (dayjs_format (Some ((fst (random_draw s) * date_now s) / 2 ^ 53))
             (default_undef (prop opt (lit "format")) (JStr TIME_DEFAULT_FOMAT))),
   snd (random_draw s)).
Proof.
  intros Hu Hn. unfold time. rewrite get_v_coercible by assumption. rewrite js_bind_ret.
  cbv beta zeta. unfold js_bind. now rewrite randomDate_spec.
Qed.

(** A generator that reads its options without the [opt || {}] guard:
    it throws exactly on [undefined] and [null], before any effect. *)
Lemma unguarded_throws (f : jsval -> js St jsstr) opt s :
  (forall o, o <> JUndefined -> o <> JNull -> exists r s', f o s = (Normal r, s')) ->
  (exists e, f JUndefined s = (Throw e, s)) -> (exists e, f JNull s = (Throw e, s)) ->
  ((exists e s', f opt s = (Throw e, s')) <-> opt = JUndefined \/ opt = JNull) /\
  (forall e s', f opt s = (Throw e, s') -> s' = s).
Proof.
  intros Hok [eu Hu] [en Hn].
  assert (Hcase : (opt = JUndefined \/ opt = JNull) \/ (opt <> JUndefined /\ opt <> JNull))
    by (destruct opt; (left; now auto) || (right; split; discriminate)).
  destruct Hcase as [Hc|[Hu' Hn']].
  - split; [split; [intros _; exact Hc|intros _]|];
      destruct Hc as [->| ->]; [eauto|eauto|rewrite Hu|rewrite Hn];
      intros e s' [= _ <-]; reflexivity.
  - destruct (Hok opt Hu' Hn') as (r & s1 & Hr). rewrite Hr.
    split; [split; [intros (e & s' & [=])|intros [?|?]; contradiction]|]. intros e s' [=].
Qed.

(** C16: [date(opt)] throws a [TypeError] exactly when [opt] is [undefined]
    or [null]: the destructuring [const { format } = opt] has no
    [opt || {}] guard, unlike [integer] and [string].  It throws before
    reading the clock or drawing, leaving the state as it was. *)
Theorem date_throws_iff opt s :
  ((exists e s', date opt s = (Throw e, s')) <-> opt = JUndefined \/ opt = JNull) /\
  (forall e s', date opt s = (Throw e, s') -> s' = s).
Proof.
  apply unguarded_throws; [|eexists; reflexivity|eexists; reflexivity].
  intros o Hu Hn. rewrite date_spec by assumption. eauto.
Qed.

(** C27: [time(opt)] throws a [TypeError] exactly when [opt] is [undefined]
    or [null], like [date], and before any draw. *)
Theorem time_throws_iff opt s :
  ((exists e s', time opt s = (Throw e, s')) <-> opt = JUndefined \/ opt = JNull) /\
  (forall e s', time opt s = (Throw e, s') -> s' = s).
Proof.
  apply unguarded_throws; [|eexists; reflexivity|eexists; reflexivity].
  intros o Hu Hn. rewrite time_spec by assumption. eauto.
Qed.

(** C38: Called with options of their declared type [formatOpt], [date]
    and [time] never throw: their [TypeError] needs an argument outside
    the type, such as the missing one of [@date()]. *)
Theorem format_typed_options o s :
  formatOpt o = true ->
  (exists r, date o s = (Normal r, snd (random_draw s))) /\
  (exists r, time o s = (Normal r, snd (random_draw s))).
Proof.
  intros Ho. destruct o; try discriminate.
  rewrite date_spec, time_spec by discriminate. split; eexists; reflexivity.
Qed.

End WithFormatter.
End GeneratorFacts.

(** ** The theorems on concrete inputs *)

Module RandomWitnesses.
Import Basic GeneratorFacts Examples.

Lemma integer_range_witness :
  1 <= 10 /\ exists v, integer (int_opts 1 10) (st [2 ^ 52]) =
    (Normal (JNum v), snd (random_draw (st [2 ^ 52]))) /\ 1 <= v <= 10.
Proof. split; [lia|]. apply (integer_range 1 10 (st [2 ^ 52])). lia. Defined.

Lemma string_length_in_bounds_witness :
  let o := JObj [(lit "min", JNum 10); (lit "max", JNum 40)] in
  string_opts_ok (or_empty o) = true /\
  (forall m, parsed_bound (prop (or_empty o) (lit "min")) STRING_MIN_LEN = Some m ->
             m <> 0 -> m <= STRING_MAX_LEN) /\
  (forall m, parsed_bound (prop (or_empty o) (lit "max")) STRING_MAX_LEN = Some m ->
             m <> 0 -> STRING_MIN_LEN <= m) /\
  exists str, js_eval (string o) (st [2 ^ 52]) = Normal str /\
    STRING_MIN_LEN <= Z.of_nat (length str) <= STRING_MAX_LEN.
Proof.
  intros o.
  assert (H0 : string_opts_ok (or_empty o) = true) by (vm_compute; reflexivity).
  assert (H1 : forall m, parsed_bound (prop (or_empty o) (lit "min")) STRING_MIN_LEN = Some m ->
                         m <> 0 -> m <= STRING_MAX_LEN).
  { intros m Hm _. vm_compute in Hm. injection Hm as <-. simpl. lia. }
  assert (H2 : forall m, parsed_bound (prop (or_empty o) (lit "max")) STRING_MAX_LEN = Some m ->
                         m <> 0 -> STRING_MIN_LEN <= m).
  { intros m Hm _. vm_compute in Hm. injection Hm as <-. simpl. lia. }
  split; [exact H0|]. split; [exact H1|]. split; [exact H2|].
  apply (string_length_in_bounds o (st [2 ^ 52]) H0 H1 H2).
Defined.

Lemma string_len_exact_witness :
  let o := JObj [(lit "min", JNum 10); (lit "max", JNum 40); (lit "len", JNum 33)] in
  string_opts_ok (or_empty o) = true /\
  parse_int10 (to_js_string (prop (or_empty o) (lit "len"))) = Some 33 /\
  STRING_MIN_LEN <= 33 <= STRING_MAX_LEN /\
  exists str, js_eval (string o) (st []) = Normal str /\ Z.of_nat (length str) = 33.
Proof.
  intros o.
  assert (H0 : string_opts_ok (or_empty o) = true) by (vm_compute; reflexivity).
  assert (H1 : parse_int10 (to_js_string (prop (or_empty o) (lit "len"))) = Some 33)
    by (vm_compute; reflexivity).
  assert (H2 : STRING_MIN_LEN <= 33 <= STRING_MAX_LEN) by (simpl; lia).
  split; [exact H0|]. split; [exact H1|]. split; [exact H2|].
  apply (string_len_exact o (st []) 33 H0 H1 H2).
Defined.

(** [{len: " 12px"}] gives 12 characters. *)
Lemma string_len_text_prefix_witness :
  forallb is_js_whitespace [32] = true /\ lit "12" <> [] /\ forallb is_digit (lit "12") = true /\
  stops_at is_digit (lit "px") = true /\
  STRING_MIN_LEN <= digits_value (lit "12") <= STRING_MAX_LEN /\
  exists str, js_eval (string (JObj [(lit "len", JStr ([32] ++ lit "12" ++ lit "px"))])) (st []) =
    Normal str /\ Z.of_nat (length str) = digits_value (lit "12").
Proof.
  assert (H1 : forallb is_js_whitespace [32] = true) by reflexivity.
  assert (H2 : lit "12" <> []) by discriminate.
  assert (H3 : forallb is_digit (lit "12") = true) by reflexivity.
  assert (H4 : stops_at is_digit (lit "px") = true) by reflexivity.
  assert (H5 : STRING_MIN_LEN <= digits_value (lit "12") <= STRING_MAX_LEN) by (vm_compute; split; discriminate).
  do 5 (split; [assumption|]).
  exact (string_len_text_prefix (st []) [32] (lit "12") (lit "px") H1 H2 H3 H4 H5).
Defined.

(** [string({len: "2"})] draws its two characters and nothing else. *)
Lemma string_draws_witness :
  let o := JObj [(lit "len", JStr (lit "2"))] in
  string_opts_ok (or_empty o) = true /\
  exists str,
    string o (st [0; 5]) =
      (Normal str,
       skip_draws ((if len_ok (parse_int10 (to_js_string (prop (or_empty o) (lit "len"))))
                    then 0 else 1) + length str) (st [0; 5])) /\
    Forall (fun c => In c allChar) str.
Proof.
  intros o. assert (H0 : string_opts_ok (or_empty o) = true) by (vm_compute; reflexivity).
  split; [exact H0|]. exact (string_draws o (st [0; 5]) H0).
Defined.

Lemma string_min_above_max_witness :
  fst (random_draw (st [0])) = 0 /\ STRING_MAX_LEN < 60 /\
  exists str, js_eval (string (JObj [(lit "min", JNum 60)])) (st [0]) = Normal str /\
    Z.of_nat (length str) = 60.
Proof.
  assert (H1 : fst (random_draw (st [0])) = 0) by reflexivity.
  assert (H2 : STRING_MAX_LEN < 60) by (simpl; lia).
  split; [exact H1|]. split; [exact H2|].
  apply (string_min_above_max (st [0]) 60 H1 H2).
Defined.

Lemma boolean_fair_witness :
  fst (random_draw (st [2 ^ 52 + 5])) = (fst (random_draw (st [5])) + 2 ^ 52) mod 2 ^ 53 /\
  js_eval boolean (st [2 ^ 52 + 5]) = Normal (negb (2 ^ 52 <=? fst (random_draw (st [5])))) /\
  js_eval boolean (st [5]) = Normal (2 ^ 52 <=? fst (random_draw (st [5]))).
Proof.
  assert (H : fst (random_draw (st [2 ^ 52 + 5])) =
              (fst (random_draw (st [5])) + 2 ^ 52) mod 2 ^ 53) by (vm_compute; reflexivity).
  split; [exact H|]. apply (boolean_fair (st [5]) (st [2 ^ 52 + 5]) H).
Defined.

Lemma string_max_below_min_witness :
  -1 < STRING_MIN_LEN /\ -1 <> 0 /\
  exists str, js_eval (string (JObj [(lit "max", JNum (-1))])) (st [2 ^ 53 - 1]) = Normal str /\
    Z.of_nat (length str) <= STRING_MIN_LEN /\
    (fst (random_draw (st [2 ^ 53 - 1])) = 2 ^ 53 - 1 -> STRING_MIN_LEN - -1 < 2 ^ 52 ->
     length str = Z.to_nat (-1)).
Proof.
  assert (H1 : -1 < STRING_MIN_LEN) by (simpl; lia).
  assert (H2 : -1 <> 0) by lia.
  split; [exact H1|]. split; [exact H2|].
  apply (string_max_below_min (st [2 ^ 53 - 1]) (-1) H1 H2).
Defined.

Lemma char_draw_interval_witness :
  0 <= 0 /\ nth_error allChar (Z.to_nat 0) = Some 65 /\
  (js_eval char (st [5]) = Normal [65] <->
   (2 * 0 - 1) * 2 ^ 52 <= fst (random_draw (st [5])) * 61 < (2 * 0 + 1) * 2 ^ 52).
Proof.
  assert (H1 : 0 <= 0) by lia.
  assert (H2 : nth_error allChar (Z.to_nat 0) = Some 65) by reflexivity.
  split; [exact H1|]. split; [exact H2|].
  exact (char_draw_interval (st [5]) 0 65 H1 H2).
Defined.

Lemma integer_unparsable_nan_witness :
  parse_int10 (lit "abc") = None /\
  integer (JObj [(lit "min", JStr (lit "abc"))]) (st [7]) = (Normal JNaN, snd (random_draw (st [7]))).
Proof.
  assert (H : parse_int10 (lit "abc") = None) by (vm_compute; reflexivity).
  split; [exact H|]. exact (integer_unparsable_nan (lit "abc") (st [7]) H).
Defined.

Lemma integer_typed_options_witness :
  integerOption (int_opts 1 5) = true /\
  exists v, integer (int_opts 1 5) (st [3]) = (Normal v, snd (random_draw (st [3]))) /\
    typeof v = TNumber.
Proof.
  assert (H : integerOption (int_opts 1 5) = true) by reflexivity.
  split; [exact H|]. exact (integer_typed_options (int_opts 1 5) (st [3]) H).
Defined.

Lemma format_typed_options_witness :
  formatOpt (JObj [(lit "format", JStr (lit "YYYY"))]) = true /\
  (exists r, date (JObj [(lit "format", JStr (lit "YYYY"))]) (st [3]) =
     (Normal r, snd (random_draw (st [3])))) /\
  (exists r, time (JObj [(lit "format", JStr (lit "YYYY"))]) (st [3]) =
     (Normal r, snd (random_draw (st [3])))).
Proof.
  assert (H : formatOpt (JObj [(lit "format", JStr (lit "YYYY"))]) = true) by reflexivity.
  split; [exact H|]. exact (format_typed_options _ (st [3]) H).
Defined.

Lemma string_min_max_honored_witness :
  STRING_MIN_LEN <= 10 <= 40 /\ 40 <= STRING_MAX_LEN /\ 0 < 40 /\
  exists str, js_eval (string (JObj [(lit "min", JNum 10); (lit "max", JNum 40)])) (st [2 ^ 52]) =
    Normal str /\ 10 <= Z.of_nat (length str) <= 40.
Proof.
  assert (H1 : STRING_MIN_LEN <= 10 <= 40) by (simpl; lia).
  assert (H2 : 40 <= STRING_MAX_LEN) by (simpl; lia).
  assert (H3 : 0 < 40) by lia.
  split; [exact H1|]. split; [exact H2|]. split; [exact H3|].
  exact (string_min_max_honored (st [2 ^ 52]) 10 40 H1 H2 H3).
Defined.

End RandomWitnesses.
