(* ===== verification/StringLoop.v ===== *)
(** * StringLoop: the loop of [string] as a transition system

    basic.ts lines 45-49 build the result of [string] with
    [for (let i = 0; i < strLen; i++) { res += char(); }].  Module
    [Basic] of [Random] models the loop by recursion on the number of
    iterations ([string_loop]).  Here the loop is read as the program
    runs it: a state of the loop variables [i] and [res] and of the
    random source, one transition per iteration guarded by
    [i < strLen].  The theorems: the reachable states keep the loop
    invariant ([i] characters of [allChar] accumulated, [0 <= i <=
    max 0 strLen]); every run terminates; from every state the exit is
    reachable; and the state at the exit is exactly what [string_loop]
    computes, so the recursive model refines the loop. *)

From Stdlib Require Import ZArith Lia Bool String List.
From S2P Require Import Prelude JsValue Random.
Import ListNotations.
Open Scope Z_scope.

Module StringLoop.
Import Basic GeneratorFacts.

Section Loop.
Context {St : Type} `{RandomSource St}.

(** The loop variables and the state of the random source. *)
Record loop_state := LoopState { ls_i : Z; ls_res : jsstr; ls_src : St }.

(** One iteration: the guard [i < strLen], then [res += char()], then
    [i++]. *)
Inductive loop_step (strLen : Z) : loop_state -> loop_state -> Prop :=
| loop_iter i res s c s' :
    i < strLen -> char s = (Normal c, s') ->
    loop_step strLen (LoopState i res s) (LoopState (i + 1) (res ++ c) s').

(** [let res = ''] and [let i = 0]. *)
Definition loop_init (s : St) : loop_state := LoopState 0 [] s.

(** The guard fails: the loop exits. *)
Definition loop_done (strLen : Z) (ls : loop_state) : bool := negb (ls_i ls <? strLen).

(** What holds at every iteration. *)
Definition loop_inv (strLen : Z) (ls : loop_state) : Prop :=
  0 <= ls_i ls <= Z.max 0 strLen /\ length (ls_res ls) = Z.to_nat (ls_i ls) /\
  Forall (fun c => In c allChar) (ls_res ls).

(** ** Lemmas *)

Lemma loop_step_det n a b c : loop_step n a b -> loop_step n a c -> b = c.
Proof.
  intros Hb Hc. destruct Hb as [i res s c1 s1 _ H1].
  inversion Hc as [i' res' s' c2 s2 _ H2]; subst. rewrite H1 in H2. congruence.
Qed.

Lemma loop_done_final n ls : loop_done n ls = true -> forall d, ~ loop_step n ls d.
Proof.
  intros Hd d Hs. destruct Hs as [i res s c s' Hi _]. unfold loop_done in Hd. cbn in Hd.
  apply negb_true_iff, Z.ltb_ge in Hd. lia.
Qed.

(** The remaining [m] iterations from any state, as a run of the loop
    and as the recursive model. *)
Lemma loop_run n m i res s :
  Z.to_nat (n - i) = m ->
  exists res' s', string_loop m res s = (Normal res', s') /\
    star (loop_step n) (LoopState i res s) (LoopState (i + Z.of_nat m) res' s').
Proof.
  revert i res s. induction m as [|m IH]; intros i res s Hm.
  - exists res, s. split; [reflexivity|]. rewrite Z.add_0_r. constructor.
  - destruct (char_spec s) as (c & Hc & _).
    destruct (IH (i + 1) (res ++ [c]) (snd (random_draw s)) ltac:(lia))
      as (res' & s' & Hrun & Hstar).
    exists res', s'. split.
    + cbn [string_loop]. unfold js_bind. rewrite Hc. exact Hrun.
    + eapply star_step; [constructor; [lia|exact Hc]|].
      replace (i + Z.of_nat (S m)) with (i + 1 + Z.of_nat m) by lia. exact Hstar.
Qed.

(** ** The loop *)

(** C32: Every state the loop reaches holds [i] characters of [allChar],
    with [0 <= i <= max 0 strLen]. *)
Theorem loop_invariant n s ls : star (loop_step n) (loop_init s) ls -> loop_inv n ls.
Proof.
  intros Hs. refine (star_invariant (loop_step n) (loop_inv n) _ (loop_init s) ls Hs _).
  - intros a b Ha Hab. destruct Hab as [i res s1 c s2 Hlt Hc].
    destruct Ha as (Hi & Hl & Hall). cbn [ls_i ls_res] in *.
    destruct (char_spec s1) as (c' & Hc' & Hin). rewrite Hc in Hc'. injection Hc' as -> _.
    unfold loop_inv; cbn [ls_i ls_res]. split; [lia|]. split.
    + rewrite length_app, Hl. cbn. lia.
    + apply Forall_app. auto.
  - unfold loop_inv; cbn [ls_i ls_res loop_init]. split; [lia|]. auto.
Qed.

(** C33: Every run of the loop is finite: [strLen - i] decreases at each
    iteration. *)
Theorem loop_terminates n ls : terminates (loop_step n) ls.
Proof.
  apply (measure_terminates _ (fun ls => Z.to_nat (n - ls_i ls))).
  intros a b Hab. destruct Hab. cbn. lia.
Qed.

(** C34: From every state the loop can reach its exit: it never gets stuck
    while the guard holds. *)
Theorem loop_exits n ls :
  exists ls', star (loop_step n) ls ls' /\ loop_done n ls' = true.
Proof.
  destruct ls as [i res s].
  destruct (loop_run n (Z.to_nat (n - i)) i res s eq_refl) as (res' & s' & _ & Hstar).
  eexists. split; [exact Hstar|]. unfold loop_done. cbn.
  apply negb_true_iff, Z.ltb_ge. lia.
Qed.

(** C35: The recursive model [string_loop] computes exactly the exit state
    of the loop: a state is reached at the exit iff it carries the
    result and the source state of [string_loop], with [i = max 0 strLen]. *)
Theorem loop_refines_string_loop n s ls :
  star (loop_step n) (loop_init s) ls /\ loop_done n ls = true <->
  exists res s', string_loop (for_count (JNum n)) [] s = (Normal res, s') /\
    ls = LoopState (Z.max 0 n) res s'.
Proof.
  destruct (loop_run n (Z.to_nat n) 0 [] s ltac:(f_equal; lia)) as (res & s' & Hrun & Hstar).
  replace (0 + Z.of_nat (Z.to_nat n)) with (Z.max 0 n) in Hstar by lia.
  assert (Hdone : loop_done n (LoopState (Z.max 0 n) res s') = true)
    by (unfold loop_done; cbn; apply negb_true_iff, Z.ltb_ge; lia).
  cbn [for_count]. split.
  - intros [Hls Hd]. exists res, s'. split; [exact Hrun|].
    exact (star_final_unique _ (@loop_step_det n) _ _ _ Hls Hstar
             (loop_done_final n ls Hd) (loop_done_final n _ Hdone)).
  - intros (res1 & s1 & Hrun1 & ->). rewrite Hrun in Hrun1. injection Hrun1 as <- <-.
    split; [exact Hstar|exact Hdone].
Qed.

End Loop.
End StringLoop.

(** ** The theorems on concrete inputs *)

Module StringLoopWitnesses.
Import Basic Examples StringLoop.

(** One iteration from the draw [0], which gives ['A']. *)
Lemma loop_invariant_witness :
  star (loop_step 2) (loop_init (st [0; 5])) (LoopState 1 (lit "A") (st [5])) /\
  loop_inv 2 (LoopState 1 (lit "A") (st [5])).
Proof.
  assert (Hc : char (st [0; 5]) = (Normal (lit "A"), st [5])) by (vm_compute; reflexivity).
  assert (Hs : star (loop_step 2) (loop_init (st [0; 5])) (LoopState 1 (lit "A") (st [5]))).
  { eapply star_step; [exact (loop_iter 2 0 [] (st [0; 5]) (lit "A") (st [5]) ltac:(lia) Hc)|].
    apply star_refl. }
  split; [exact Hs|]. exact (loop_invariant 2 (st [0; 5]) _ Hs).
Defined.

End StringLoopWitnesses.
