(* ===== verification/Parser.v ===== *)
(** * Parser: hl/src/parser.ts

    [parser(value)] matches [value] against the directive pattern, splits
    the argument text on [,], drops empty pieces, turns digit-only pieces
    into numbers, looks the opcode up in the generator set [random] and
    then in the external registry [use], and calls what it finds with the
    arguments spread.

    The generator set is a finite map ([gmap]) from names to generators;
    a registry is anything with a [lookup] (the record [Registry]), and
    the two-tier lookup [random[opt] || use(opt)] is [two_tier].  The
    external [use] is a parameter of [parser]: every theorem holds for
    every registry.  The inductive [resolves] is the resolver's contract,
    stated with the declarative directive of [RegexSpec]; the theorem
    [parser_meets_contract] shows that [parser] is its unique
    implementation. *)

From Stdlib Require Import ZArith String.
From stdpp Require Import base gmap list.
From S2P Require Import Prelude JsValue Regex RegexSpec Random.
Open Scope Z_scope.
Open Scope js_scope.

(** A generator called with the spread argument list. *)
Definition Gen (St : Type) : Type := list jsval -> js St jsval.

(** What a registry promises the resolver: a generator by name, or none. *)
Record Registry (St : Type) := { reg_lookup : jsstr -> option (Gen St) }.
Arguments reg_lookup {St} _ _.

(** A registry backed by a table, like a JavaScript object of functions. *)
Definition table_registry {St} (t : gmap jsstr (Gen St)) : Registry St :=
  {| reg_lookup := fun k => t !! k |}.

(** [random[opt] || use(opt)]: the first registry, then the second. *)
Definition two_tier {St} (first second : Registry St) : Registry St :=
  {| reg_lookup := fun k =>
       match reg_lookup first k with
       | Some g => Some g
       | None => reg_lookup second k
       end |}.

(** ** Laws of registries

    Registries are compared by what they resolve ([reg_equiv]), a
    coarser relation than equality of records of functions; the two-tier
    lookup respects it, and chaining fallbacks is associative with the
    empty registry as unit. *)

Definition empty_registry {St} : Registry St := {| reg_lookup := fun _ => None |}.

Definition reg_equiv {St} (r1 r2 : Registry St) : Prop :=
  forall k, reg_lookup r1 k = reg_lookup r2 k.

#[export] Instance reg_equiv_equivalence {St} : Equivalence (@reg_equiv St).
Proof.
  split; [intros r k; reflexivity | intros r1 r2 H k; symmetry; apply H |].
  intros r1 r2 r3 H1 H2 k. now rewrite H1, H2.
Qed.

#[export] Instance two_tier_proper {St} :
  Proper (reg_equiv ==> reg_equiv ==> reg_equiv) (@two_tier St).
Proof. intros a a' Ha b b' Hb k. cbn. now rewrite Ha, Hb. Qed.

(** Chaining fallbacks: a monoid up to [reg_equiv], stated with the
    algebraic classes of stdpp. *)
#[export] Instance two_tier_assoc {St} : Assoc (@reg_equiv St) two_tier.
Proof. intros a b c k. cbn. now destruct (reg_lookup a k). Qed.

#[export] Instance two_tier_left_id {St} : LeftId (@reg_equiv St) empty_registry two_tier.
Proof. intros r k. reflexivity. Qed.

#[export] Instance two_tier_right_id {St} : RightId (@reg_equiv St) empty_registry two_tier.
Proof. intros r k. cbn. now destruct (reg_lookup r k). Qed.

(** The fallback only matters where the first registry knows nothing. *)
Lemma two_tier_agree_outside {St} (a b1 b2 : Registry St) :
  (forall k, reg_lookup a k = None -> reg_lookup b1 k = reg_lookup b2 k) ->
  reg_equiv (two_tier a b1) (two_tier a b2).
Proof. intros H k. cbn. destruct (reg_lookup a k) eqn:E; [reflexivity|]. now apply H. Qed.

Module Resolver.
Import Basic GeneratorFacts.

(** The first positional argument, [undefined] when there is none. *)
Definition arg0 (args : list jsval) : jsval :=
  match args with [] => JUndefined | a :: _ => a end.

Section WithGenerators.
Context {St : Type} `{RandomSource St} `{StringBounds} `{DateFormatter}.

(** The generator set [random] that parser.ts imports from ./random:
    the exports of basic.ts, each taking its options object as its
    first argument. *)
Definition random_table : gmap jsstr (Gen St) :=
  list_to_map
    [(lit "integer", fun args => integer (arg0 args));
     (lit "string", fun args => let* r := string (arg0 args) in ret (JStr r));
     (lit "boolean", fun _ => let* b := boolean in ret (JBool b));
     (lit "date", fun args => let* r := date (arg0 args) in ret (JStr r));
     (lit "time", fun args => let* r := time (arg0 args) in ret (JStr r))].

(** [arg.match(/^\d+$/) ? Number(arg) : arg] (line 19). *)
Definition classify_arg (arg : jsstr) : jsval :=
  if Directive.digits_match_ref arg then number_of_digits arg else JStr arg.

(** [match[2].split(',').filter(Boolean).map(...)] (lines 16-19). *)
Definition parse_args (blob : jsstr) : list jsval :=
  map classify_arg (filter_truthy (split_on 44 blob)).

(** parser.ts lines 9-24. *)
Definition parser (use : Registry St) (value : jsstr) : js St jsval :=
  match Directive.directive_match_ref value with
  | None => ret (JStr value)
  | Some (opt, argstr) =>
      let args := parse_args argstr in
      match reg_lookup (two_tier (table_registry random_table) use) opt with
      | Some func => func args
      | None => ret JUndefined
      end
  end.

(** The contract of the resolver, stated with the declarative reading
    of the directive pattern ([RegexSpec]) instead of the regex engine:
    a value in which no [@] starts a directive is returned as it is;
    otherwise the opcode of the leftmost directive is looked up, the
    generator set first, and the generator found is called with the
    parsed arguments, an unknown opcode giving [undefined]. *)
Inductive resolves (use : Registry St) (value : jsstr) : js St jsval -> Prop :=
| resolves_literal :
    (forall i w a, ~ DirectiveSpec.directive_at_pos value i w a) ->
    resolves use value (ret (JStr value))
| resolves_call i w a g :
    DirectiveSpec.leftmost_directive value i w a ->
    reg_lookup (two_tier (table_registry random_table) use) w = Some g ->
    resolves use value (g (parse_args a))
| resolves_unknown i w a :
    DirectiveSpec.leftmost_directive value i w a ->
    reg_lookup (two_tier (table_registry random_table) use) w = None ->
    resolves use value (ret JUndefined).

(** The type each generator of the set advertises (spec, section 2). *)
Definition advertised_type : gmap jsstr jstype :=
  list_to_map
    [(lit "integer", TNumber); (lit "string", TString); (lit "boolean", TBoolean);
     (lit "date", TString); (lit "time", TString)].

(** ** Resolution *)

(** [parser] sees the registries only through the two-tier lookup. *)
Lemma parser_registry_equiv u1 u2 value :
  reg_equiv (two_tier (table_registry random_table) u1) (two_tier (table_registry random_table) u2) ->
  parser u1 value = parser u2 value.
Proof.
  intros Hu. unfold parser. destruct (Directive.directive_match_ref value) as [[opt a]|]; [|reflexivity].
  now rewrite (Hu opt).
Qed.



Lemma parser_scan use value :
  parser use value =
  match Directive.scan_directive value with
  | None => ret (JStr value)
  | Some (opt, argstr) =>
      match reg_lookup (two_tier (table_registry random_table) use) opt with
      | Some func => func (parse_args argstr)
      | None => ret JUndefined
      end
  end.
Proof.
  unfold parser, Directive.directive_match_ref, RegexEngine.regex_exec.
  now rewrite (Directive.exec_scan value (length value) 0) by lia.
Qed.

Lemma scan_no_at value : ~ In 64 value -> Directive.scan_directive value = None.
Proof.
  induction value as [|c r IH]; intros Hin; [reflexivity|]. cbn [Directive.scan_directive].
  destruct (Z.eqb_spec c 64) as [->|]; [exfalso; apply Hin; now left|].
  apply IH. intros H'. apply Hin. now right.
Qed.

Lemma random_table_string :
  random_table !! lit "string" = Some (fun args => let* r := string (arg0 args) in ret (JStr r)).
Proof. reflexivity. Qed.

Lemma random_table_integer : random_table !! lit "integer" = Some (fun args => integer (arg0 args)).
Proof. reflexivity. Qed.

Lemma random_table_date :
  random_table !! lit "date" = Some (fun args => let* r := date (arg0 args) in ret (JStr r)).
Proof. reflexivity. Qed.

(** The generator [parser] calls for an opcode of the table. *)
Lemma parser_builtin use value op argstr (g : Gen St) :
  Directive.scan_directive value = Some (op, argstr) -> random_table !! op = Some g ->
  parser use value = g (parse_args argstr).
Proof. intros Hs Hg. rewrite parser_scan, Hs. cbn [reg_lookup two_tier table_registry]. now rewrite Hg. Qed.

(** ** Arguments *)

Lemma classify_arg_cases t :
  (Directive.is_digit_string t = true /\ classify_arg t = JNum (digits_value t)) \/
  (Directive.is_digit_string t = false /\ classify_arg t = JStr t).
Proof.
  unfold classify_arg, Directive.digits_match_ref. rewrite Directive.digits_regex_exec.
  destruct (Directive.is_digit_string t); auto.
Qed.

(** A natural number written in decimal is read back as that number. *)
Lemma classify_arg_number n : 0 <= n -> classify_arg (number_to_string n) = JNum n.
Proof.
  intros Hn. destruct (number_to_string_digits n Hn) as (Hne & Hds & Hv).
  destruct (classify_arg_cases (number_to_string n)) as [[_ ->]|[Hno _]].
  - now rewrite Hv.
  - exfalso. unfold Directive.is_digit_string in Hno.
    destruct (number_to_string n); [congruence|]. congruence.
Qed.

Lemma number_to_string_no_comma n : 0 <= n -> ~ In 44 (number_to_string n).
Proof.
  intros Hn Hin. destruct (number_to_string_digits n Hn) as (_ & Hds & _).
  rewrite forallb_forall in Hds. apply Hds in Hin. discriminate.
Qed.

Lemma arg0_parse_args_primitive a ps : arg0 (parse_args a) <> JObj ps.
Proof.
  unfold parse_args. destruct (filter_truthy (split_on 44 a)) as [|t ts]; [discriminate|].
  cbn. destruct (classify_arg_cases t) as [[_ ->]|[_ ->]]; discriminate.
Qed.

(** The first parsed argument is absent only when there is none, and it
    is never [null]. *)
Lemma arg0_parse_args_cases a :
  (parse_args a = [] /\ arg0 (parse_args a) = JUndefined) \/
  (arg0 (parse_args a) <> JUndefined /\ arg0 (parse_args a) <> JNull).
Proof.
  unfold parse_args. destruct (filter_truthy (split_on 44 a)) as [|t ts]; [now left|right].
  cbn. destruct (classify_arg_cases t) as [[_ ->]|[_ ->]]; split; discriminate.
Qed.

(** ** What the resolver does with a directive *)

(** C10: A string without [(], such as the option syntax
    ["@string|min=5"] of the tests of lsd, is returned unchanged, and no
    random draw is consumed. *)
Theorem parser_no_paren_identity use value s :
  ~ In 40 value -> parser use value s = (Normal (JStr value), s).
Proof.
  intros Hin. unfold parser.
  rewrite (proj2 (DirectiveSpec.directive_match_none value)); [reflexivity|].
  intros i w a Hp. exact (Hin (DirectiveSpec.at_pos_open_paren _ _ _ _ Hp)).
Qed.

(** C9: A string with no [@] is returned as it is, and no random draw
    is consumed. *)
Theorem parser_no_at_identity use value s :
  ~ In 64 value -> parser use value s = (Normal (JStr value), s).
Proof.
  intros Hin. rewrite parser_scan, scan_no_at by exact Hin. reflexivity.
Qed.

(** C17: An opcode that neither the generator set nor [use] knows yields
    [undefined], without consuming a draw and without throwing. *)
Theorem parser_unknown_opcode use value op argstr s :
  Directive.scan_directive value = Some (op, argstr) ->
  random_table !! op = None -> reg_lookup use op = None ->
  parser use value s = (Normal JUndefined, s).
Proof.
  intros Hs Ht Hu. rewrite parser_scan, Hs. cbn [reg_lookup two_tier table_registry].
  now rewrite Ht, Hu.
Qed.

(** C20: For a name outside the generator set, [use] is consulted and its
    generator receives the parsed arguments. *)
Theorem parser_use_fallback use value op argstr (g : Gen St) :
  Directive.scan_directive value = Some (op, argstr) ->
  random_table !! op = None -> reg_lookup use op = Some g ->
  parser use value = g (parse_args argstr).
Proof.
  intros Hs Ht Hu. rewrite parser_scan, Hs. cbn [reg_lookup two_tier table_registry].
  now rewrite Ht, Hu.
Qed.

(** C21: A name of the generator set is never looked up in [use]: the
    result does not depend on the external registry. *)
Theorem parser_builtin_shadows_use use1 use2 value op argstr :
  Directive.scan_directive value = Some (op, argstr) -> is_Some (random_table !! op) ->
  parser use1 value = parser use2 value.
Proof.
  intros Hs [g Hg]. rewrite (parser_builtin use1 value op argstr g Hs Hg).
  now rewrite (parser_builtin use2 value op argstr g Hs Hg).
Qed.

(** ** The resolver meets its contract *)

(** C1: [parser] implements the contract [resolves], and it is the only
    computation that does: the contract determines the resolver. *)
Theorem parser_meets_contract use value m :
  resolves use value m <-> m = parser use value.
Proof.
  pose proof (DirectiveSpec.directive_match_sound value) as Hs. unfold parser.
  split.
  - intros Hr. destruct Hr as [Hno | i w a g Hl Hg | i w a Hl Hg].
    + now rewrite (proj2 (DirectiveSpec.directive_match_none value) Hno).
    + now rewrite (DirectiveSpec.directive_match_of_leftmost value i w a Hl), Hg.
    + now rewrite (DirectiveSpec.directive_match_of_leftmost value i w a Hl), Hg.
  - intros ->. destruct (Directive.directive_match_ref value) as [[w a]|]; cbn in Hs.
    + destruct Hs as (i & Hi).
      destruct (reg_lookup _ w) eqn:Hg; [eapply resolves_call|eapply resolves_unknown]; eassumption.
    + now apply resolves_literal.
Qed.

(** C31: [parser] consults [use] only for names outside the generator
    set: two registries that agree outside it resolve every value alike. *)
Theorem parser_use_outside_table u1 u2 value :
  (forall k, random_table !! k = None -> reg_lookup u1 k = reg_lookup u2 k) ->
  parser u1 value = parser u2 value.
Proof.
  intros Hu. apply parser_registry_equiv.
  rewrite (two_tier_agree_outside (table_registry random_table) u1 u2 Hu). reflexivity.
Qed.

(** C36: A directive whose opcode is in the generator set yields a value
    of the type the generator advertises ([number] for [integer],
    [string] for [string], [date] and [time], [boolean] for [boolean]);
    the only other outcome is the [TypeError] of [@date()] and [@time()]
    called without an argument. *)
Theorem parser_builtin_typed use value op a s :
  Directive.directive_match_ref value = Some (op, a) -> is_Some (random_table !! op) ->
  (exists v s', parser use value s = (Normal v, s') /\ advertised_type !! op = Some (typeof v)) \/
  ((op = lit "date" \/ op = lit "time") /\ parse_args a = [] /\
   exists e s', parser use value s = (Throw e, s')).
Proof.
  intros Hm [g Hg]. unfold parser. rewrite Hm. cbn [reg_lookup two_tier table_registry].
  rewrite Hg. apply elem_of_list_to_map_2 in Hg. rewrite !elem_of_cons, elem_of_nil in Hg.
  destruct Hg as [Hg|[Hg|[Hg|[Hg|[Hg|[]]]]]]; injection Hg as -> ->; unfold js_bind.
  - left. destruct (integer_primitive_defaults (arg0 (parse_args a)) s
                      (arg0_parse_args_primitive a)) as (n & -> & _).
    eexists _, _. split; reflexivity.
  - left. destruct (string_run (arg0 (parse_args a)) s
                      (string_opts_ok_primitive _ (arg0_parse_args_primitive a)))
      as (v & s1 & str & _ & -> & _).
    eexists _, _. split; reflexivity.
  - left. rewrite boolean_spec. eexists _, _. split; reflexivity.
  - destruct (arg0_parse_args_cases a) as [[He ->]|[Hu Hn]].
    + right. split; [now left|]. split; [exact He|]. eexists _, _. reflexivity.
    + left. rewrite (date_spec _ s Hu Hn). eexists _, _. split; reflexivity.
  - destruct (arg0_parse_args_cases a) as [[He ->]|[Hu Hn]].
    + right. split; [now right|]. split; [exact He|]. eexists _, _. reflexivity.
    + left. rewrite (time_spec _ s Hu Hn). eexists _, _. split; reflexivity.
Qed.

(** ** Arguments *)

(** What one comma-free piece of argument text stands for: the number
    it spells when it is a nonempty run of decimal digits, the piece
    itself otherwise. *)
Definition arg_value (t : jsstr) : jsval :=
  if Directive.is_digit_string t then JNum (digits_value t) else JStr t.

(** C19: [parse_args] decodes the argument text piece by piece: for any
    comma-free pieces, parsing their comma-joined text gives, in order,
    the value of every nonempty piece: empty pieces are dropped, runs of
    digits become numbers, the other pieces ("3.5", "-3", "bar") stay
    strings. *)
Theorem parse_args_pieces ps :
  Forall (fun p => ~ In 44 p) ps ->
  parse_args (join_with 44 ps) = map arg_value (List.filter (fun p => negb (length p =? 0)%nat) ps).
Proof.
  intros Hps. unfold parse_args. destruct ps as [|p ps']; [reflexivity|].
  rewrite split_join by (discriminate || exact Hps). unfold filter_truthy.
  rewrite (List.filter_ext (fun p => truthy (JStr p)) (fun p => negb (length p =? 0)%nat))
    by (intros [|]; reflexivity).
  apply map_ext. intros t. unfold arg_value.
  destruct (classify_arg_cases t) as [[-> ->]|[-> ->]]; reflexivity.
Qed.

Lemma key_min_not_length : lit "min" <> lit "length".
Proof. discriminate. Qed.

Lemma key_max_not_length : lit "max" <> lit "length".
Proof. discriminate. Qed.

(** C3: Whatever its arguments, [@string(...)] yields a string whose length
    lies within [STRING_MIN_LEN .. STRING_MAX_LEN]. *)
Theorem parser_string_in_bounds use value argstr s :
  Directive.scan_directive value = Some (lit "string", argstr) ->
  exists str, js_eval (parser use value) s = Normal (JStr str) /\
    STRING_MIN_LEN <= Z.of_nat (length str) <= STRING_MAX_LEN.
Proof.
  intros Hs. rewrite (parser_builtin use value _ argstr _ Hs random_table_string).
  pose proof string_bounds_ok as Hb.
  pose proof (arg0_parse_args_primitive argstr) as Hv.
  destruct (string_length_value (arg0 (parse_args argstr)) s (string_opts_ok_primitive _ Hv)) as (v & str & Hstr & Hlen & Hcase).
  assert (STRING_MIN_LEN <= v <= STRING_MAX_LEN).
  { apply (length_choice_in_bounds (arg0 (parse_args argstr)) s v); [| |exact Hcase].
    - rewrite prop_or_empty_primitive by (exact Hv || exact key_min_not_length).
      unfold parsed_bound. cbn [default_undef]. rewrite parse_int10_to_js_string.
      intros m [= <-] _. lia.
    - rewrite prop_or_empty_primitive by (exact Hv || exact key_max_not_length).
      unfold parsed_bound. cbn [default_undef]. rewrite parse_int10_to_js_string.
      intros m [= <-] _. lia. }
  exists str. split; [now apply js_eval_bind_ret|]. rewrite Hlen, Z2Nat.id; lia.
Qed.

(** C13: The arguments of [@string(...)] are ignored: every [@string]
    directive gives the same result from the same random state. *)
Theorem parser_string_ignores_args use v1 v2 a1 a2 :
  Directive.scan_directive v1 = Some (lit "string", a1) ->
  Directive.scan_directive v2 = Some (lit "string", a2) ->
  forall s, parser use v1 s = parser use v2 s.
Proof.
  intros Hs1 Hs2 s.
  rewrite (parser_builtin use v1 _ a1 _ Hs1 random_table_string),
    (parser_builtin use v2 _ a2 _ Hs2 random_table_string).
  unfold js_bind.
  rewrite (string_primitive (arg0 (parse_args a1))), (string_primitive (arg0 (parse_args a2)))
    by apply arg0_parse_args_primitive.
  reflexivity.
Qed.

(** C14: [@integer(...)] ignores its arguments and draws over the whole safe
    integer range. *)
Theorem parser_integer_safe_range use value argstr s :
  Directive.scan_directive value = Some (lit "integer", argstr) ->
  exists n, js_eval (parser use value) s = Normal (JNum n) /\
    n = round_draw (fst (random_draw s)) MIN_SAFE_INTEGER MAX_SAFE_INTEGER /\
    MIN_SAFE_INTEGER <= n <= MAX_SAFE_INTEGER.
Proof.
  intros Hs. rewrite (parser_builtin use value _ argstr _ Hs random_table_integer).
  destruct (integer_primitive_defaults (arg0 (parse_args argstr)) s) as (n & Hn & Hb & Heq);
    [apply arg0_parse_args_primitive|].
  exists n. unfold js_eval. rewrite Hn. auto.
Qed.

(** C40: Printing natural numbers in decimal, separated by commas, and
    parsing the text back as the arguments of a directive gives the
    numbers back: [@f(0,7,42)] passes [0], [7] and [42]. *)
Theorem parse_args_numbers_roundtrip ns :
  Forall (fun n => 0 <= n) ns -> parse_args (join_with 44 (map number_to_string ns)) = map JNum ns.
Proof.
  intros Hns. destruct ns as [|n ns']; [reflexivity|]. unfold parse_args.
  rewrite split_join.
  - rewrite filter_truthy_all, map_map.
    + apply map_ext_in. intros m Hm. apply classify_arg_number.
      rewrite List.Forall_forall in Hns. now apply Hns.
    + apply List.Forall_map. eapply List.Forall_impl; [|exact Hns].
      intros m Hm. exact (proj1 (number_to_string_digits m Hm)).
  - discriminate.
  - apply List.Forall_map. eapply List.Forall_impl; [|exact Hns]. exact number_to_string_no_comma.
Qed.

(** C15: [@date()] with no argument throws: [date] destructures its missing
    options object. *)
Theorem parser_date_no_args_throws use value argstr s :
  Directive.scan_directive value = Some (lit "date", argstr) ->
  filter_truthy (split_on 44 argstr) = [] ->
  exists e, js_eval (parser use value) s = Throw e.
Proof.
  intros Hs Hnone. rewrite (parser_builtin use value _ argstr _ Hs random_table_date).
  unfold parse_args. rewrite Hnone. cbn [map arg0].
  eexists. apply js_eval_bind_throw. reflexivity.
Qed.

(** C25: With an argument, [@date(x)] always uses [DATE_DEFAULT_FOMAT]: the
    argument is a number or a string, which has no [format] property. *)
Theorem parser_date_default_format use value argstr s :
  Directive.scan_directive value = Some (lit "date", argstr) ->
  filter_truthy (split_on 44 argstr) <> [] ->
  js_eval (parser use value) s =
  Normal (JStr (dayjs_format (Some ((fst (random_draw s) * date_now s) / 2 ^ 53))
                             (JStr DATE_DEFAULT_FOMAT))).
Proof.
  intros Hs Hsome. rewrite (parser_builtin use value _ argstr _ Hs random_table_date).
  unfold parse_args. destruct (filter_truthy (split_on 44 argstr)) as [|t ts]; [congruence|].
  cbn [map arg0]. apply js_eval_bind_ret.
  destruct (classify_arg_cases t) as [[_ ->]|[_ ->]]; unfold js_eval;
    rewrite date_spec by discriminate; reflexivity.
Qed.

End WithGenerators.
End Resolver.

(** ** The theorems on concrete inputs *)

Module ParserWitnesses.
Import Basic Examples Resolver.

(** An empty [use] registry, and one that knows [foo] and returns its
    arguments as an object. *)
Definition no_use : Registry ListState := {| reg_lookup := fun _ => None |}.

Definition echo_gen : Gen ListState :=
  fun args => ret (JObj (map (fun a => (lit "arg", a)) args)).

Definition echo_use : Registry ListState :=
  {| reg_lookup := fun k => if str_eqb k (lit "foo") then Some echo_gen else None |}.

(** A registry that defines every name, the built-in ones included. *)
Definition echo_all_use : Registry ListState := {| reg_lookup := fun _ => Some echo_gen |}.

Lemma parser_no_at_identity_witness :
  ~ In 64 (lit "plain text") /\
  parser no_use (lit "plain text") (st []) = (Normal (JStr (lit "plain text")), st []).
Proof.
  assert (H : ~ In 64 (lit "plain text")) by (vm_compute; lia).
  split; [exact H|]. apply (parser_no_at_identity no_use (lit "plain text") (st []) H).
Defined.

Lemma parser_no_paren_identity_witness :
  ~ In 40 (lit "@string|min=5") /\
  parser no_use (lit "@string|min=5") (st []) = (Normal (JStr (lit "@string|min=5")), st []).
Proof.
  assert (H : ~ In 40 (lit "@string|min=5"))
    by (vm_compute; lia).
  split; [exact H|]. apply (parser_no_paren_identity no_use (lit "@string|min=5") (st []) H).
Defined.

Lemma parser_string_in_bounds_witness :
  Directive.scan_directive (lit "@string(min=10,max=40,len=33)") =
    Some (lit "string", lit "min=10,max=40,len=33") /\
  exists str, js_eval (parser no_use (lit "@string(min=10,max=40,len=33)")) (st [0])
                = Normal (JStr str) /\
    STRING_MIN_LEN <= Z.of_nat (length str) <= STRING_MAX_LEN.
Proof.
  assert (H : Directive.scan_directive (lit "@string(min=10,max=40,len=33)") =
              Some (lit "string", lit "min=10,max=40,len=33")) by (vm_compute; reflexivity).
  split; [exact H|]. apply (parser_string_in_bounds no_use _ _ (st [0]) H).
Defined.

Lemma parser_string_ignores_args_witness :
  Directive.scan_directive (lit "@string(5)") = Some (lit "string", lit "5") /\
  Directive.scan_directive (lit "@string(min=10,max=40,len=33)") =
    Some (lit "string", lit "min=10,max=40,len=33") /\
  parser no_use (lit "@string(5)") (st [0]) =
    parser no_use (lit "@string(min=10,max=40,len=33)") (st [0]).
Proof.
  assert (H1 : Directive.scan_directive (lit "@string(5)") = Some (lit "string", lit "5"))
    by (vm_compute; reflexivity).
  assert (H2 : Directive.scan_directive (lit "@string(min=10,max=40,len=33)") =
               Some (lit "string", lit "min=10,max=40,len=33")) by (vm_compute; reflexivity).
  split; [exact H1|]. split; [exact H2|].
  apply (parser_string_ignores_args no_use _ _ _ _ H1 H2).
Defined.

Lemma parser_integer_safe_range_witness :
  Directive.scan_directive (lit "@integer(1,5)") = Some (lit "integer", lit "1,5") /\
  exists n, js_eval (parser no_use (lit "@integer(1,5)")) (st [0]) = Normal (JNum n) /\
    n = round_draw (fst (random_draw (st [0]))) MIN_SAFE_INTEGER MAX_SAFE_INTEGER /\
    MIN_SAFE_INTEGER <= n <= MAX_SAFE_INTEGER.
Proof.
  assert (H : Directive.scan_directive (lit "@integer(1,5)") = Some (lit "integer", lit "1,5"))
    by (vm_compute; reflexivity).
  split; [exact H|]. apply (parser_integer_safe_range no_use _ _ (st [0]) H).
Defined.

Lemma parser_unknown_opcode_witness :
  Directive.scan_directive (lit "@nothing(1)") = Some (lit "nothing", lit "1") /\
  random_table !! lit "nothing" = None /\ reg_lookup no_use (lit "nothing") = None /\
  parser no_use (lit "@nothing(1)") (st []) = (Normal JUndefined, st []).
Proof.
  assert (H1 : Directive.scan_directive (lit "@nothing(1)") = Some (lit "nothing", lit "1"))
    by (vm_compute; reflexivity).
  assert (H2 : (random_table !! lit "nothing" : option (Gen ListState)) = None)
    by (vm_compute; reflexivity).
  assert (H3 : reg_lookup no_use (lit "nothing") = None) by reflexivity.
  split; [exact H1|]. split; [exact H2|]. split; [exact H3|].
  apply (parser_unknown_opcode no_use _ _ _ (st []) H1 H2 H3).
Defined.

Lemma parser_use_fallback_witness :
  Directive.scan_directive (lit "@foo(1,2,bar)") = Some (lit "foo", lit "1,2,bar") /\
  random_table !! lit "foo" = None /\ reg_lookup echo_use (lit "foo") = Some echo_gen /\
  parser echo_use (lit "@foo(1,2,bar)") = echo_gen (parse_args (lit "1,2,bar")).
Proof.
  assert (H1 : Directive.scan_directive (lit "@foo(1,2,bar)") = Some (lit "foo", lit "1,2,bar"))
    by (vm_compute; reflexivity).
  assert (H2 : (random_table !! lit "foo" : option (Gen ListState)) = None)
    by (vm_compute; reflexivity).
  assert (H3 : reg_lookup echo_use (lit "foo") = Some echo_gen) by reflexivity.
  split; [exact H1|]. split; [exact H2|]. split; [exact H3|].
  apply (parser_use_fallback echo_use _ _ _ echo_gen H1 H2 H3).
Defined.

Lemma parser_builtin_shadows_use_witness :
  Directive.scan_directive (lit "@boolean()") = Some (lit "boolean", []) /\
  is_Some (random_table !! lit "boolean" : option (Gen ListState)) /\
  parser no_use (lit "@boolean()") = parser echo_all_use (lit "@boolean()").
Proof.
  assert (H1 : Directive.scan_directive (lit "@boolean()") = Some (lit "boolean", []))
    by (vm_compute; reflexivity).
  assert (H2 : is_Some (random_table !! lit "boolean" : option (Gen ListState)))
    by (eexists; reflexivity).
  split; [exact H1|]. split; [exact H2|].
  apply (parser_builtin_shadows_use no_use echo_all_use _ _ _ H1 H2).
Defined.

(** ["1,,2.5,bar"]: the empty piece is dropped, ["2.5"] stays a string. *)
Lemma parse_args_pieces_witness :
  Forall (fun p => ~ In 44 p) [lit "1"; []; lit "2.5"; lit "bar"] /\
  parse_args (join_with 44 [lit "1"; []; lit "2.5"; lit "bar"]) =
    map arg_value (List.filter (fun p => negb (length p =? 0)%nat) [lit "1"; []; lit "2.5"; lit "bar"]).
Proof.
  assert (H : Forall (fun p => ~ In 44 p) [lit "1"; []; lit "2.5"; lit "bar"])
    by (repeat constructor; cbn; intuition discriminate).
  split; [exact H|]. exact (parse_args_pieces _ H).
Defined.

Lemma parser_date_no_args_throws_witness :
  Directive.scan_directive (lit "@date()") = Some (lit "date", []) /\
  filter_truthy (split_on 44 []) = [] /\
  exists e, js_eval (parser no_use (lit "@date()")) (st []) = Throw e.
Proof.
  assert (H1 : Directive.scan_directive (lit "@date()") = Some (lit "date", []))
    by (vm_compute; reflexivity).
  assert (H2 : filter_truthy (split_on 44 []) = []) by reflexivity.
  split; [exact H1|]. split; [exact H2|].
  apply (parser_date_no_args_throws no_use _ _ (st []) H1 H2).
Defined.

Lemma parser_date_default_format_witness :
  Directive.scan_directive (lit "@date(YYYY)") = Some (lit "date", lit "YYYY") /\
  filter_truthy (split_on 44 (lit "YYYY")) <> [] /\
  js_eval (parser no_use (lit "@date(YYYY)")) (st [2 ^ 52]) =
  Normal (JStr (dayjs_format (Some ((fst (random_draw (st [2 ^ 52])) * date_now (st [2 ^ 52])) / 2 ^ 53))
                             (JStr DATE_DEFAULT_FOMAT))).
Proof.
  assert (H1 : Directive.scan_directive (lit "@date(YYYY)") = Some (lit "date", lit "YYYY"))
    by (vm_compute; reflexivity).
  assert (H2 : filter_truthy (split_on 44 (lit "YYYY")) <> []) by (vm_compute; discriminate).
  split; [exact H1|]. split; [exact H2|].
  apply (parser_date_default_format no_use _ _ (st [2 ^ 52]) H1 H2).
Defined.

(** A registry that tries to redefine the built-in [boolean]. *)
Definition shadow_use : Registry ListState :=
  {| reg_lookup := fun k => if str_eqb k (lit "boolean") then Some echo_gen else None |}.

Lemma parser_use_outside_table_witness :
  (forall k, random_table !! k = None -> reg_lookup no_use k = reg_lookup shadow_use k) /\
  parser no_use (lit "@boolean()") = parser shadow_use (lit "@boolean()").
Proof.
  assert (H : forall k, random_table !! k = None -> reg_lookup no_use k = reg_lookup shadow_use k).
  { intros k Hk. cbn [reg_lookup no_use shadow_use].
    destruct (str_eqb k (lit "boolean")) eqn:E; [|reflexivity].
    apply str_eqb_eq in E. subst k.
    assert (Hb : is_Some (random_table !! lit "boolean" : option (Gen ListState)))
      by (eexists; reflexivity).
    rewrite Hk in Hb. now destruct Hb. }
  split; [exact H|]. exact (parser_use_outside_table no_use shadow_use (lit "@boolean()") H).
Defined.

Lemma parser_builtin_typed_witness :
  Directive.directive_match_ref (lit "@date()") = Some (lit "date", []) /\
  is_Some (random_table !! lit "date" : option (Gen ListState)) /\
  ((exists v s', parser no_use (lit "@date()") (st [0]) = (Normal v, s') /\
     advertised_type !! lit "date" = Some (typeof v)) \/
   ((lit "date" = lit "date" \/ lit "date" = lit "time") /\ parse_args [] = [] /\
    exists e s', parser no_use (lit "@date()") (st [0]) = (Throw e, s'))).
Proof.
  assert (H1 : Directive.directive_match_ref (lit "@date()") = Some (lit "date", []))
    by (vm_compute; reflexivity).
  assert (H2 : is_Some (random_table !! lit "date" : option (Gen ListState)))
    by (eexists; reflexivity).
  split; [exact H1|]. split; [exact H2|].
  exact (parser_builtin_typed no_use (lit "@date()") (lit "date") [] (st [0]) H1 H2).
Defined.

Lemma parse_args_numbers_roundtrip_witness :
  Forall (fun n => 0 <= n) [0; 7; 42] /\
  parse_args (join_with 44 (map number_to_string [0; 7; 42])) = map JNum [0; 7; 42].
Proof.
  assert (H : Forall (fun n => 0 <= n) [0; 7; 42]) by (repeat constructor; lia).
  split; [exact H|]. exact (parse_args_numbers_roundtrip [0; 7; 42] H).
Defined.

End ParserWitnesses.
